(** * jobnotify: a verification development for [jobnotify.py]

    The script queries a search API for a fixed list of queries, turns the
    answers into records, removes duplicate urls, writes a CSV file and
    mails a report.  This file embeds the script function by function and
    proves properties of the embedding.

    Conventions of the embedding:
    - a Python [str] is a [string]: the bytes of its UTF-8 encoding (text
      that has none, such as a lone surrogate, is outside the model);
    - a value that is a [str] or [None] is an [option string];
    - a Python [set] is a stdpp [gset], a [list] is a [list], a [dict] with
      a fixed set of keys is a record;
    - code with effects runs in a small state-and-exception monad over an
      explicit world (module [Eff]);
    - what the script does not decide is a field of the world: the answer
      to a request, whether a file opens for writing, whether the email
      library parses an address, the answer of the mail relay, the time.
      The checks of the libraries that depend on the text alone (a header
      value of more than one line, a field longer than the csv reader
      allows) are part of the model. *)

From Stdlib Require Import Ascii String ZArith.
From stdpp Require Import gmap strings list pretty.

(** ** Data model *)

(** The dict built by [extract_results]: keys ["title"], ["url"],
    ["snippet"], each holding a [str] or [None]. *)
Record JobRecord : Type := mkJob {
  title : option string;
  url : option string;
  snippet : option string;
}.

Global Instance JobRecord_eq_dec : EqDecision JobRecord.
Proof. solve_decision. Defined.

(** Truth value of a [str]-or-[None] in a condition: [None] and the empty
    string are false, every other string is true. *)
Definition truthy (v : option string) : bool :=
  match v with
  | Some (String _ _) => true
  | Some EmptyString => false
  | None => false
  end.

(** ** The deduplicator *)

Module Dedupe.

(** Loop state of [dedupe]: the set [seen] and the list [out]. *)
Definition state : Type := gset (option string) * list JobRecord.

(** One iteration of [for r in results]:
    [key = r.get("url"); if key and key not in seen: seen.add(key); out.append(r)]. *)
Definition step (st : state) (r : JobRecord) : state :=
  let '(seen, out) := st in
  let key := url r in
  if truthy key && bool_decide (key ∉ seen)
  then ({[key]} ∪ seen, out ++ [r])
  else (seen, out).

Definition loop (st : state) (results : list JobRecord) : state :=
  foldl step st results.

End Dedupe.

(** [def dedupe(results)]: [seen, out = set(), []], the loop, [return out]. *)
Definition dedupe (results : list JobRecord) : list JobRecord :=
  snd (Dedupe.loop (∅, []) results).

(** ** The extractor *)

(** One element of the ["items"] list of a search response: an object whose
    ["title"], ["link"] and ["snippet"] hold a string or are missing. *)
Record Item : Type := mkItem {
  item_title : option string;
  item_link : option string;
  item_snippet : option string;
}.

(** The parsed JSON body of a search response; [items] is [None] when the
    key ["items"] is missing. *)
Record SearchJson : Type := mkSearchJson {
  items : option (list Item);
}.

(** [def extract_results(search_json)]: the loop appends one dict per item
    of [search_json.get("items", [])]. *)
Definition extract_results (search_json : SearchJson) : list JobRecord :=
  foldl (λ results item,
           results ++ [ {| title := item_title item;
                           url := item_link item;
                           snippet := item_snippet item |} ])
        [] (default [] (items search_json)).

(** ** Characters and text helpers *)

Definition LF : ascii := "010"%char.
Definition CR : ascii := "013"%char.
Definition QUOTE : ascii := "034"%char.
Definition COMMA : ascii := ","%char.

(** The one-character string ["\n"]. *)
Definition nl : string := String LF "".

(** [sep.join(parts)]. *)
Definition join (sep : string) (parts : list string) : string :=
  String.concat sep parts.

(** [needle in text] for two strings. *)
Definition contains (needle text : string) : Prop :=
  ∃ pre post, text = pre +:+ needle +:+ post.

(** [str(v)] as an f-string field prints it, for a [str] or [None]. *)
Definition py_str (v : option string) : string :=
  match v with
  | Some s => s
  | None => "None"
  end.

(** [os.path.basename(path)]: what follows the last ['/']. *)
Fixpoint basename (path : string) : string :=
  match path with
  | "" => ""
  | String c rest =>
      if Ascii.eqb c "/" then basename rest
      else if existsb (Ascii.eqb "/") (list_ascii_of_string rest)
           then basename rest
           else path
  end.

(** A byte that continues a character of the UTF-8 encoding. *)
Definition continuation (c : ascii) : bool :=
  match c with
  | Ascii _ _ _ _ _ _ b6 b7 => b7 && negb b6
  end.

(** [len(s)]: the number of characters, counted as the bytes that start
    one. *)
Fixpoint code_points (s : string) : N :=
  match s with
  | "" => 0%N
  | String c rest => ((if continuation c then 0 else 1) + code_points rest)%N
  end.

(** A byte below 128: a character of ASCII. *)
Definition is_ascii (c : ascii) : bool :=
  match c with
  | Ascii _ _ _ _ _ _ _ b7 => negb b7
  end.

(** The line boundaries of [str.splitlines] that are one ASCII character,
    [\r] apart: [\n], [\v], [\f] and the separators 28, 29 and 30. *)
Definition line_break (c : ascii) : bool :=
  Ascii.eqb c LF || Ascii.eqb c "011" || Ascii.eqb c "012"
  || Ascii.eqb c "028" || Ascii.eqb c "029" || Ascii.eqb c "030".

(** [s.splitlines()]: the lines of [s] without their endings.  A line
    ends at [\r\n], at [\r], at a character of [line_break], or at one of
    U+0085, U+2028 and U+2029 (the bytes 194 133, 226 128 168 and
    226 128 169). *)
Fixpoint str_splitlines (s : string) : list string :=
  match s with
  | "" => []
  | String c rest =>
      let carry := match str_splitlines rest with
                   | [] => [String c ""]
                   | line :: lines => String c line :: lines
                   end in
      if Ascii.eqb c CR then
        match rest with
        | String c' rest' =>
            if Ascii.eqb c' LF then "" :: str_splitlines rest'
            else "" :: str_splitlines rest
        | "" => [""]
        end
      else if line_break c then "" :: str_splitlines rest
      else if Ascii.eqb c "194" then
        match rest with
        | String c' rest' =>
            if Ascii.eqb c' "133" then "" :: str_splitlines rest' else carry
        | "" => carry
        end
      else if Ascii.eqb c "226" then
        match rest with
        | String c1 (String c2 rest'') =>
            if Ascii.eqb c1 "128" && (Ascii.eqb c2 "168" || Ascii.eqb c2 "169")
            then "" :: str_splitlines rest''
            else carry
        | _ => carry
        end
      else carry
  end.

(** ** The csv module, excel dialect

    [save_csv] writes through [csv.DictWriter] with the default dialect:
    delimiter comma, quote character the double quote, written twice
    inside a quoted field, line terminator CR LF, minimal quoting, no
    escape character, not strict.  This module models the writer and the
    reader of the [csv] library for that dialect; the reader is the
    library's automaton, fed line by line, with its limit on the size of a
    field. *)

Module Csv.

(** A field is quoted when it holds the delimiter, the quote character or
    a character of the line terminator. *)
Definition special (c : ascii) : bool :=
  Ascii.eqb c COMMA || Ascii.eqb c QUOTE || Ascii.eqb c CR || Ascii.eqb c LF.

Fixpoint has_special (s : string) : bool :=
  match s with
  | "" => false
  | String c rest => special c || has_special rest
  end.

(** Inside quotes every quote character is written twice. *)
Fixpoint double_quotes (s : string) : string :=
  match s with
  | "" => ""
  | String c rest =>
      if Ascii.eqb c QUOTE
      then String QUOTE (String QUOTE (double_quotes rest))
      else String c (double_quotes rest)
  end.

Definition write_field (s : string) : string :=
  if has_special s
  then String QUOTE (double_quotes s +:+ String QUOTE "")
  else s.

Definition lineterminator : string := String CR (String LF "").

(** [writer.writerow(fields)]: the text of one record.  A record made of a
    single empty field is written as a pair of quotes. *)
Definition writerow (fields : list string) : string :=
  match fields with
  | [ "" ] => String QUOTE (String QUOTE lineterminator)
  | _ => join "," (write_field <$> fields) +:+ lineterminator
  end.

(** The writer prints [None] as the empty string and a [str] as it is. *)
Definition cell (v : option string) : string :=
  match v with
  | Some s => s
  | None => ""
  end.

(** States of the reader's automaton.  The states entered only after an
    escape character are left out: the dialect has none. *)
Inductive parser_state : Type :=
  | START_RECORD | START_FIELD | IN_FIELD
  | IN_QUOTED_FIELD | QUOTE_IN_QUOTED_FIELD | EAT_CRNL.

Global Instance parser_state_eq_dec : EqDecision parser_state.
Proof. solve_decision. Defined.

Record reader : Type := mkReader {
  state : parser_state;
  field : string;          (* the field being read *)
  fields : list string;    (* the fields of the record read so far *)
}.

(** What the automaton is fed: a character, or the end of a line. *)
Inductive input : Type :=
  | Chr (c : ascii)
  | EOL.

Definition is_newline (c : input) : bool :=
  match c with
  | Chr a => Ascii.eqb a LF || Ascii.eqb a CR
  | EOL => false
  end.

Definition parse_reset : reader :=
  {| state := START_RECORD; field := ""; fields := [] |}.

Definition parse_save_field (r : reader) (next : parser_state) : reader :=
  {| state := next; field := ""; fields := fields r ++ [field r] |}.

(** [csv.field_size_limit()]: the most characters a field may hold. *)
Definition field_size_limit : N := 131072.

(** The reader refuses a character for a field that already holds [limit]
    of them (the library keeps the count in [field_len]; here it is the
    number of characters of the field). *)
Definition parse_add_char (limit : N) (r : reader) (a : ascii) (next : parser_state)
    : option reader :=
  if continuation a || (code_points (field r) <? limit)%N
  then Some {| state := next; field := field r +:+ String a ""; fields := fields r |}
  else None.

Definition goto (r : reader) (next : parser_state) : reader :=
  {| state := next; field := field r; fields := fields r |}.

Definition start_field (limit : N) (r : reader) (c : input) : option reader :=
  match c with
  | EOL => Some (parse_save_field r START_RECORD)
  | Chr a =>
      if is_newline c then Some (parse_save_field r EAT_CRNL)
      else if Ascii.eqb a QUOTE then Some (goto r IN_QUOTED_FIELD)
      else if Ascii.eqb a COMMA then Some (parse_save_field r START_FIELD)
      else parse_add_char limit r a IN_FIELD
  end.

(** One step of the automaton; [None] is the reader's error. *)
Definition parse_process_char (limit : N) (r : reader) (c : input) : option reader :=
  match state r with
  | START_RECORD =>
      match c with
      | EOL => Some r
      | Chr _ =>
          if is_newline c then Some (goto r EAT_CRNL)
          else start_field limit r c
      end
  | START_FIELD => start_field limit r c
  | IN_FIELD =>
      match c with
      | EOL => Some (parse_save_field r START_RECORD)
      | Chr a =>
          if is_newline c then Some (parse_save_field r EAT_CRNL)
          else if Ascii.eqb a COMMA then Some (parse_save_field r START_FIELD)
          else parse_add_char limit r a IN_FIELD
      end
  | IN_QUOTED_FIELD =>
      match c with
      | EOL => Some r
      | Chr a =>
          if Ascii.eqb a QUOTE then Some (goto r QUOTE_IN_QUOTED_FIELD)
          else parse_add_char limit r a IN_QUOTED_FIELD
      end
  | QUOTE_IN_QUOTED_FIELD =>
      match c with
      | EOL => Some (parse_save_field r START_RECORD)
      | Chr a =>
          if Ascii.eqb a QUOTE then parse_add_char limit r a IN_QUOTED_FIELD
          else if Ascii.eqb a COMMA then Some (parse_save_field r START_FIELD)
          else if is_newline c then Some (parse_save_field r EAT_CRNL)
          else parse_add_char limit r a IN_FIELD
      end
  | EAT_CRNL =>
      match c with
      | EOL => Some (goto r START_RECORD)
      | Chr _ => if is_newline c then Some r else None
      end
  end.

(** The characters of one line, then the end of the line. *)
Fixpoint feed_line (limit : N) (r : reader) (line : string) : option reader :=
  match line with
  | "" => parse_process_char limit r EOL
  | String a rest => r' ← parse_process_char limit r (Chr a); feed_line limit r' rest
  end.

(** The lines a text file yields when opened with [newline=""]: a line
    ends after [\n], after [\r\n], or after a [\r] that no [\n] follows, and
    keeps its ending. *)
Fixpoint splitlines (s : string) : list string :=
  match s with
  | "" => []
  | String c rest =>
      if Ascii.eqb c LF then String c "" :: splitlines rest
      else if Ascii.eqb c CR then
        match rest with
        | String c' rest' =>
            if Ascii.eqb c' LF
            then String c (String c' "") :: splitlines rest'
            else String c "" :: splitlines rest
        | "" => [String c ""]
        end
      else
        match splitlines rest with
        | [] => [String c ""]
        | line :: lines => String c line :: lines
        end
  end.

(** The records the reader yields: it resets, feeds lines until the
    automaton is back in [START_RECORD], and hands out the fields.  When
    the lines run out inside a record, the record read so far is handed
    out if a field is open. *)
Fixpoint rows_from (limit : N) (r : reader) (lines : list string)
    : option (list (list string)) :=
  match lines with
  | [] =>
      if bool_decide (field r ≠ "") || bool_decide (state r = IN_QUOTED_FIELD)
      then Some [fields r ++ [field r]]
      else Some []
  | line :: rest =>
      r' ← feed_line limit r line;
      if bool_decide (state r' = START_RECORD)
      then rows ← rows_from limit parse_reset rest; Some (fields r' :: rows)
      else rows_from limit r' rest
  end.

(** [list(csv.reader(f))] for the text of a file; [None] when the reader
    raises. *)
Definition read (text : string) : option (list (list string)) :=
  rows_from field_size_limit parse_reset (splitlines text).

(** [csv.DictWriter(f, fieldnames=["title","url","snippet"])]. *)
Definition fieldnames : list string := ["title"; "url"; "snippet"].

Definition writeheader : string := writerow fieldnames.

(** [writer.writerow(r)] for a record dict: its values in the order of
    [fieldnames]. *)
Definition row_of (r : JobRecord) : list string :=
  [cell (title r); cell (url r); cell (snippet r)].

End Csv.

(** The text [save_csv] puts in the file: the header, then one row per
    record. *)
Definition csv_text (results : list JobRecord) : string :=
  Csv.writeheader +:+ join "" ((λ r, Csv.writerow (Csv.row_of r)) <$> results).

(** ** Dates *)

(** The fields of a [datetime] that the script prints. *)
Record datetime : Type := mkDatetime {
  year : nat;
  month : nat;
  day : nat;
  hour : nat;
  minute : nat;
}.

(** A number in decimal, padded with zeros on the left to [width]. *)
Definition zero_pad (width n : nat) : string :=
  let digits := pretty n in
  join "" (replicate (width - String.length digits) "0") +:+ digits.

(** The year is printed as it is, without padding (as the C library
    under Linux does; the two ways agree from the year 1000 on). *)
Definition directive (d : ascii) (t : datetime) : string :=
  if Ascii.eqb d "Y" then pretty (year t)
  else if Ascii.eqb d "m" then zero_pad 2 (month t)
  else if Ascii.eqb d "d" then zero_pad 2 (day t)
  else if Ascii.eqb d "H" then zero_pad 2 (hour t)
  else if Ascii.eqb d "M" then zero_pad 2 (minute t)
  else String "%" (String d "").

(** [t.strftime(fmt)] for the directives above; other text is copied. *)
Fixpoint strftime (fmt : string) (t : datetime) : string :=
  match fmt with
  | "" => ""
  | String c rest =>
      if Ascii.eqb c "%" then
        match rest with
        | String d rest' => directive d t +:+ strftime rest' t
        | "" => String c ""
        end
      else String c (strftime rest t)
  end.

(** ** Configuration

    The module-level names read from the process environment.  [os.getenv]
    gives [None] for a variable that is not set. *)
Record Globals : Type := mkGlobals {
  GOOGLE_API_KEY : option string;   (* os.getenv("GOOGLE_API_KEY") *)
  GOOGLE_CSE_ID : option string;    (* os.getenv("GOOGLE_CSE_ID") *)
  RECIPIENT : option string;        (* os.getenv("RECIPIENT_EMAIL") *)
  FROM_EMAIL : option string;       (* os.getenv("SMTP_USER") *)
  SMTP_SERVER : string;             (* os.getenv("SMTP_SERVER", "smtp.gmail.com") *)
  SMTP_PORT : Z;                    (* int(os.getenv("SMTP_PORT", 587)) *)
  SMTP_PASS : option string;        (* os.getenv("SMTP_PASS") *)
}.

(** The required settings: the environment variable and the name bound to it. *)
Definition required_variables : list (string * (Globals → option string)) :=
  [ ("GOOGLE_API_KEY", GOOGLE_API_KEY);
    ("GOOGLE_CSE_ID", GOOGLE_CSE_ID);
    ("RECIPIENT_EMAIL", RECIPIENT);
    ("SMTP_USER", FROM_EMAIL);
    ("SMTP_PASS", SMTP_PASS) ].

Definition QUERIES : list string :=
  [ "(" +:+ String QUOTE "entry-level" +:+ String QUOTE " OR junior OR fresher) (cloud OR devops OR aws) jobs Chennai";
    "(" +:+ String QUOTE "cloud engineer" +:+ String QUOTE " OR " +:+ String QUOTE "devops engineer"
        +:+ String QUOTE ") (jobs OR hiring) (" +:+ String QUOTE "Bengaluru" +:+ String QUOTE " OR "
        +:+ String QUOTE "Chennai" +:+ String QUOTE " OR " +:+ String QUOTE "Hyderabad" +:+ String QUOTE ")";
    "(" +:+ String QUOTE "entry-level" +:+ String QUOTE " OR junior) (" +:+ String QUOTE "Cloud Engineer"
        +:+ String QUOTE " OR " +:+ String QUOTE "SRE" +:+ String QUOTE ")" ].

Definition MAX_RESULTS : Z := 10.

(** ** The world outside the script *)

(** The call [requests.get(url, params=params, timeout=15)]. *)
Record Request : Type := mkRequest {
  req_url : string;
  param_key : option string;
  param_cx : option string;
  param_q : string;
  param_start : Z;
  param_gl : string;
  req_timeout : Z;
}.

(** What the call comes back with: it raises (no connection, timeout), or
    returns a response with a status code, a reason phrase and a body that
    parses as JSON ([inr]) or does not ([inl], with the parser's message). *)
Inductive HttpOutcome : Type :=
  | NetworkFailure (msg : string)
  | Response (status : Z) (reason : string) (body : string + SearchJson).

Record Attachment : Type := mkAttachment {
  att_data : string;
  att_maintype : string;
  att_subtype : string;
  att_filename : string;
}.

Record EmailMessage : Type := mkEmail {
  Subject : string;
  From : option string;
  To : option string;
  content : string;
  attachments : list Attachment;
}.

(** One session with the mail relay: connect, [starttls], [login],
    [send_message]. *)
Record SmtpSession : Type := mkSession {
  smtp_host : string;
  smtp_port : Z;
  smtp_user : option string;
  smtp_password : option string;
  smtp_message : EmailMessage;
}.

(** The parts of a run the script does not decide. *)
Record World : Type := mkWorld {
  http_get : Request → HttpOutcome;
  (* the url of the response, query string included, as the error for a
     bad status prints it *)
  response_url : Request → string;
  (* [None]: [open(path, "w")] opens the file; [Some msg]: it raises (the
     directory is missing, the path is a directory, writing is not
     permitted) *)
  open_for_writing : string → option string;
  (* the email library's parser of address headers, which is not part of
     the model: the error it raises for a value of one line, if any *)
  address_defect : string → option string;
  (* [None]: the relay took the message; [Some msg]: a step of the session raised *)
  smtp_relay : SmtpSession → option string;
  utcnow : datetime;
}.

(** What a run does to the outside, in order. *)
Inductive event : Type :=
  | HttpGet (req : Request)
  | Printed (line : string)
  | FileWrite (path : string) (text : string)
  | FileRead (path : string)
  | Smtp (session : SmtpSession) (refusal : option string).

(** Exceptions: [SystemExit], and [Error] for every class under
    [Exception]. *)
Inductive exn : Type :=
  | SystemExit (msg : string)
  | Error (msg : string).

Record State : Type := mkState {
  files : gmap string string;
  trace : list event;
}.

(** ** A monad for state and exceptions *)

Module Eff.

Definition M (A : Type) : Type := State → (exn + A) * State.

Definition ret {A} (a : A) : M A := λ st, (inr a, st).

Definition bind {A B} (m : M A) (k : A → M B) : M B :=
  λ st, match m st with
        | (inr a, st') => k a st'
        | (inl e, st') => (inl e, st')
        end.

Definition raise {A} (e : exn) : M A := λ st, (inl e, st).

(** [try: body; except Exception as e: handler(str(e))].  [SystemExit] is
    not under [Exception] and passes through. *)
Definition try_except {A} (body : M A) (handler : string → M A) : M A :=
  λ st, match body st with
        | (inl (Error msg), st') => handler msg st'
        | other => other
        end.

Definition emit (ev : event) : M unit :=
  λ st, (inr tt, {| files := files st; trace := trace st ++ [ev] |}).

(** [for x in xs: acc = body(acc, x)]. *)
Fixpoint for_each {A B} (xs : list A) (acc : B) (body : B → A → M B) : M B :=
  match xs with
  | [] => ret acc
  | x :: xs' => bind (body acc x) (λ acc', for_each xs' acc' body)
  end.

End Eff.

Import Eff.

Global Instance M_ret : MRet M := @ret.
Global Instance M_bind : MBind M := λ A B k m, bind m k.

(** The exit status of the process for the way [main] ends. *)
Definition exit_status (r : exn + unit) : Z :=
  match r with
  | inr _ => 0
  | inl _ => 1
  end.

(** ** The script *)

Section Script.

Variable w : World.
Variable g : Globals.

Definition print (line : string) : M unit := emit (Printed line).

(** The message of [FileNotFoundError] for a path (a plain path is
    printed between single quotes). *)
Definition no_such_file (path : string) : string :=
  "[Errno 2] No such file or directory: '" +:+ path +:+ "'".

(** [open(path, "w", ...)] then the writes: the file is replaced.  The
    call raises for the empty path and where the world refuses the file. *)
Definition write_file (path text : string) : M unit :=
  λ st, if bool_decide (path = "") then (inl (Error (no_such_file path)), st)
        else match open_for_writing w path with
             | Some msg => (inl (Error msg), st)
             | None => (inr tt, {| files := <[path := text]> (files st);
                                   trace := trace st ++ [FileWrite path text] |})
             end.

(** [open(path, "rb")] then [f.read()]. *)
Definition read_file (path : string) : M string :=
  λ st, match files st !! path with
        | Some text => (inr text, {| files := files st; trace := trace st ++ [FileRead path] |})
        | None => (inl (Error (no_such_file path)), st)
        end.

(** The message of the error [resp.raise_for_status()] raises for a status
    from 400 to 599. *)
Definition http_error_msg (status : Z) (reason url : string) : string :=
  pretty status +:+ (if (status <? 500)%Z then " Client Error: " else " Server Error: ")
    +:+ reason +:+ " for url: " +:+ url.

(** [requests.get(...)], [resp.raise_for_status()], [resp.json()]. *)
Definition google_search (query : string) (start : Z) : M SearchJson :=
  let url := "https://www.googleapis.com/customsearch/v1" in
  let params := {| req_url := url;
                   param_key := GOOGLE_API_KEY g;
                   param_cx := GOOGLE_CSE_ID g;
                   param_q := query;
                   param_start := start;
                   param_gl := "in";
                   req_timeout := 15 |} in
  emit (HttpGet params) ;;
  match http_get w params with
  | NetworkFailure msg => raise (Error msg)
  | Response status reason body =>
      if (400 <=? status)%Z && (status <? 600)%Z
      then raise (Error (http_error_msg status reason (response_url w params)))
      else match body with
           | inl msg => raise (Error msg)
           | inr json => ret json
           end
  end.

(** [def save_csv(results, filename)]. *)
Definition save_csv (results : list JobRecord) (filename : string) : M unit :=
  write_file filename (csv_text results).

(** The check every assignment [msg[name] = value] starts with: a value
    of more than one line is refused. *)
Definition header_store_parse (value : string) : M unit :=
  if bool_decide (1 < length (str_splitlines value))
  then raise (Error "Header values may not contain linefeed or carriage return characters")
  else ret tt.

(** [msg["From"] = value] and [msg["To"] = value]: the check, then the
    parser of addresses.  [None] is taken as it is. *)
Definition set_address (value : option string) : M unit :=
  match value with
  | Some s =>
      header_store_parse s ;;
      match address_defect w s with
      | Some msg => raise (Error msg)
      | None => ret tt
      end
  | None => ret tt
  end.

(** The file name [msg.add_attachment] refuses: one made of ASCII
    characters that holds a line boundary (the name is then written
    between quotes in a header, which the check above refuses; any other
    name is written encoded). *)
Definition breaks_attachment_header (filename : string) : bool :=
  forallb is_ascii (list_ascii_of_string filename)
  && existsb (λ c, line_break c || Ascii.eqb c CR) (list_ascii_of_string filename).

(** [def send_email(subject, body, attachment_path=None)]. *)
Definition send_email (subject body : string) (attachment_path : option string) : M unit :=
  header_store_parse subject ;;
  set_address (FROM_EMAIL g) ;;
  set_address (RECIPIENT g) ;;
  let msg := {| Subject := subject; From := FROM_EMAIL g; To := RECIPIENT g;
                content := body; attachments := [] |} in
  msg ← (match attachment_path with
         | Some path =>
             if truthy attachment_path then
               data ← read_file path;
               (if breaks_attachment_header (basename path)
                then raise (Error "Header values may not contain linefeed or carriage return characters")
                else ret tt) ;;
               ret {| Subject := Subject msg; From := From msg; To := To msg;
                      content := content msg;
                      attachments := attachments msg ++
                        [ {| att_data := data; att_maintype := "application";
                             att_subtype := "csv"; att_filename := basename path |} ] |}
             else ret msg
         | None => ret msg
         end);
  let session := {| smtp_host := SMTP_SERVER g; smtp_port := SMTP_PORT g;
                    smtp_user := FROM_EMAIL g; smtp_password := SMTP_PASS g;
                    smtp_message := msg |} in
  emit (Smtp session (smtp_relay w session)) ;;
  match smtp_relay w session with
  | None => ret tt
  | Some refusal => raise (Error refusal)
  end.

(** One line of the report: the f-string of the loop over [results[:10]],
    with [i] counted from 1. *)
Definition top_line (i : nat) (r : JobRecord) : string :=
  pretty i +:+ ". " +:+ py_str (title r) +:+ nl +:+
  "   " +:+ py_str (url r) +:+ nl +:+
  "   " +:+ py_str (snippet r) +:+ nl.

Definition report_body (results : list JobRecord) : string :=
  let top_lines := imap (λ i r, top_line (S i) r) (take 10 results) in
  "Daily Jobs Report — Entry-level Cloud/DevOps (AWS)" +:+ nl +:+ nl +:+ join nl top_lines.

(** The body of [for q in QUERIES]: the [try] with its [except]. *)
Definition search_step (all_results : list JobRecord) (q : string) : M (list JobRecord) :=
  try_except
    (data ← google_search q 1;
     let res := extract_results data in
     ret (all_results ++ res))
    (λ e, print ("Search error: " +:+ e) ;; ret all_results).

(** [main] from [results = dedupe(all_results)] on. *)
Definition report (results : list JobRecord) : M unit :=
  match results with
  | [] =>
      let body := "No results found on " +:+ strftime "%Y-%m-%d %H:%M UTC" (utcnow w) in
      send_email "Daily Jobs Report — No Results" body None
  | _ :: _ =>
      let csvfile := "daily_jobs_google.csv" in
      save_csv results csvfile ;;
      let body := report_body results in
      let subject := "Daily Jobs Report — " +:+ strftime "%Y-%m-%d" (utcnow w) +:+ " (Google Search)" in
      send_email subject body (Some csvfile) ;;
      print "Report sent."
  end.

Definition missing_message : string :=
  "Missing required environment variables: GOOGLE_API_KEY, GOOGLE_CSE_ID, RECIPIENT_EMAIL, SMTP_USER, SMTP_PASS".

(** [def main()]. *)
Definition main : M unit :=
  if negb (truthy (GOOGLE_API_KEY g)) || negb (truthy (GOOGLE_CSE_ID g))
     || negb (truthy (RECIPIENT g)) || negb (truthy (FROM_EMAIL g))
     || negb (truthy (SMTP_PASS g))
  then raise (SystemExit missing_message)
  else
    all_results ← for_each QUERIES [] search_step;
    let results := dedupe all_results in
    report results.

End Script.

(** ** Definitions used in the statements and proofs *)

(** Number of times a record value occurs in a list. *)
Definition times (r : JobRecord) (l : list JobRecord) : nat :=
  length (filter (λ x, x = r) l).

(** The turn of the loop of [dedupe] for position [i] of [l] appends the
    record there: the test [key and key not in seen] passes in the state
    the loop has reached after the positions before [i]. *)
Definition kept_at (l : list JobRecord) (i : nat) : bool :=
  match l !! i with
  | Some r =>
      let seen := fst (Dedupe.loop (∅, []) (take i l)) in
      truthy (url r) && bool_decide (url r ∉ seen)
  | None => false
  end.

(** Position [i] holds the first occurrence of the record [r] in [l]. *)
Definition first_occ (l : list JobRecord) (i : nat) (r : JobRecord) : Prop :=
  l !! i = Some r ∧ ∀ k, k < i → l !! k ≠ Some r.

Module DedupeAux.

(** The records appended by the loop when it starts with the set [seen]. *)
Fixpoint sift (seen : gset (option string)) (l : list JobRecord) : list JobRecord :=
  match l with
  | [] => []
  | r :: l' =>
      if truthy (url r) && bool_decide (url r ∉ seen)
      then r :: sift ({[url r]} ∪ seen) l'
      else sift seen l'
  end.

(** The set held by the loop after it has run over [l]. *)
Fixpoint marks (seen : gset (option string)) (l : list JobRecord) : gset (option string) :=
  match l with
  | [] => seen
  | r :: l' =>
      if truthy (url r) && bool_decide (url r ∉ seen)
      then marks ({[url r]} ∪ seen) l'
      else marks seen l'
  end.

End DedupeAux.

Module TextAux.

(** The bytes that are part of no line boundary of [str.splitlines]. *)
Definition plain_byte (c : ascii) : bool :=
  negb (line_break c || Ascii.eqb c CR || Ascii.eqb c "133"
        || Ascii.eqb c "168" || Ascii.eqb c "169").

Definition all_plain (s : string) : bool :=
  forallb plain_byte (list_ascii_of_string s).

End TextAux.

Module CsvAux.
Import Csv.

(** The size of the longest field of the rows of some records. *)
Definition widest (rs : list JobRecord) : N :=
  foldr (λ r m, foldr N.max m (code_points <$> row_of r)) 0%N rs.

(** No field of the row is longer than [limit]. *)
Definition fits (limit : N) (row : list string) : Prop :=
  Forall (λ s, (code_points s ≤ limit)%N) row.

(** The state the automaton is in once it has read the written form of the
    field [s], having started the field in state [st]. *)
Definition after_field (st : parser_state) (s : string) : parser_state :=
  match s with
  | "" => st
  | String _ _ => if has_special s then QUOTE_IN_QUOTED_FIELD else IN_FIELD
  end.

End CsvAux.



(** The state after more events. *)
Definition log (st : State) (evs : list event) : State :=
  {| files := files st; trace := trace st ++ evs |}.

(** The mail sessions among some events. *)
Definition mails (evs : list event) : list SmtpSession :=
  omap (λ ev, match ev with Smtp session _ => Some session | _ => None end) evs.

(** The messages a relay took among some events. *)
Definition delivered (evs : list event) : list EmailMessage :=
  omap (λ ev, match ev with
              | Smtp session None => Some (smtp_message session)
              | _ => None
              end) evs.

(** The file writes among some events. *)
Definition writes (evs : list event) : list (string * string) :=
  omap (λ ev, match ev with FileWrite path text => Some (path, text) | _ => None end) evs.

(** The requests among some events. *)
Definition requests (evs : list event) : list Request :=
  omap (λ ev, match ev with HttpGet req => Some req | _ => None end) evs.

(** All five required settings are set and not empty. *)
Definition configured (g : Globals) : Prop :=
  forallb (λ required, truthy (required.2 g)) required_variables = true.

(** A text of at most one line: the email library takes it as the value
    of a header. *)
Definition one_line (s : string) : Prop :=
  length (str_splitlines s) ≤ 1.

(** The email library takes the value as a From or To header: it has at
    most one line and the parser of addresses raises nothing for it. *)
Definition address_accepted (w : World) (v : option string) : Prop :=
  match v with
  | Some s => one_line s ∧ address_defect w s = None
  | None => True
  end.

(** The sender and the recipient of the settings are taken as headers. *)
Definition addresses_accepted (w : World) (g : Globals) : Prop :=
  address_accepted w (FROM_EMAIL g) ∧ address_accepted w (RECIPIENT g).


(** A month, day, hour or minute as a date prints it: in decimal, with a
    zero before a single digit. *)
Definition two_digits (n : nat) : string :=
  if n <? 10 then "0" +:+ pretty n else pretty n.

(** The UTC date as year-month-day. *)
Definition iso_date (t : datetime) : string :=
  pretty (year t) +:+ "-" +:+ two_digits (month t) +:+ "-" +:+ two_digits (day t).

(** The UTC time as hour:minute. *)
Definition clock (t : datetime) : string :=
  two_digits (hour t) +:+ ":" +:+ two_digits (minute t).

Section ScriptAux.

Variable w : World.
Variable g : Globals.

(** The request [google_search(q)] sends. *)
Definition search_request (q : string) : Request :=
  {| req_url := "https://www.googleapis.com/customsearch/v1";
     param_key := GOOGLE_API_KEY g;
     param_cx := GOOGLE_CSE_ID g;
     param_q := q;
     param_start := 1;
     param_gl := "in";
     req_timeout := 15 |}.

(** What [google_search(q)] ends with: the message of the error it raises,
    or the parsed body it returns. *)
Definition search_outcome (q : string) : string + SearchJson :=
  match http_get w (search_request q) with
  | NetworkFailure msg => inl msg
  | Response status reason body =>
      if (400 <=? status)%Z && (status <? 600)%Z
      then inl (http_error_msg status reason (response_url w (search_request q)))
      else body
  end.

(** The records one query adds to [all_results]. *)
Definition found (q : string) : list JobRecord :=
  match search_outcome q with
  | inl _ => []
  | inr json => extract_results json
  end.

(** The events of one turn of the query loop. *)
Definition search_events (q : string) : list event :=
  HttpGet (search_request q) ::
  match search_outcome q with
  | inl msg => [Printed ("Search error: " +:+ msg)]
  | inr _ => []
  end.

(** The message [send_email] builds when nothing is attached. *)
Definition plain_message (subject body : string) : EmailMessage :=
  {| Subject := subject; From := FROM_EMAIL g; To := RECIPIENT g;
     content := body; attachments := [] |}.

(** The session [send_email] opens for a message. *)
Definition session_for (msg : EmailMessage) : SmtpSession :=
  {| smtp_host := SMTP_SERVER g; smtp_port := SMTP_PORT g;
     smtp_user := FROM_EMAIL g; smtp_password := SMTP_PASS g;
     smtp_message := msg |}.


(** How a call of [send_email] ends, by the relay's answer. *)
Definition relay_result (msg : EmailMessage) : exn + unit :=
  match smtp_relay w (session_for msg) with
  | None => inr tt
  | Some refusal => inl (Error refusal)
  end.

(** The message [main] sends when there are no results. *)
Definition no_results_message : EmailMessage :=
  plain_message "Daily Jobs Report — No Results"
    ("No results found on " +:+ iso_date (utcnow w) +:+ " " +:+ clock (utcnow w) +:+ " UTC").

(** What some events and the way a call ended say about the mail: at most
    one session was opened; if none was, the call raised; if one was, the
    call ended as the relay answered. *)
Definition one_session_at_most (out : exn + unit) (evs : list event) : Prop :=
  length (mails evs) ≤ 1
  ∧ (mails evs = [] → ∃ e, out = inl e)
  ∧ (∀ session, mails evs = [session] →
       out = match smtp_relay w session with
             | None => inr tt
             | Some refusal => inl (Error refusal)
             end).

End ScriptAux.

(** *** Sample data *)

Definition rec_a1 : JobRecord :=
  {| title := Some "Cloud Engineer"; url := Some "https://x.com/a"; snippet := Some "first" |}.
Definition rec_a2 : JobRecord :=
  {| title := Some "Cloud Engineer (repost)"; url := Some "https://x.com/a"; snippet := None |}.
Definition rec_b : JobRecord :=
  {| title := Some "DevOps Engineer"; url := Some "https://x.com/b"; snippet := Some "second" |}.
Definition rec_nourl : JobRecord :=
  {| title := Some "SRE"; url := None; snippet := Some "no link" |}.
Definition rec_emptyurl : JobRecord :=
  {| title := Some "SRE"; url := Some ""; snippet := None |}.

Definition rec_notitle : JobRecord :=
  {| title := None; url := Some "https://x.com/c"; snippet := Some "third" |}.

Definition item_a : Item :=
  {| item_title := Some "Cloud Engineer"; item_link := Some "https://x.com/a";
     item_snippet := Some "first" |}.
Definition item_b : Item :=
  {| item_title := Some "DevOps Engineer"; item_link := Some "https://x.com/b";
     item_snippet := Some "second" |}.

(** A world where every search is answered with status 503. *)
Definition world_down : World :=
  {| http_get := λ _, Response 503 "Service Unavailable" (inl "");
     response_url := req_url;
     open_for_writing := λ _, None;
     address_defect := λ _, None;
     smtp_relay := λ _, None;
     utcnow := {| year := 2025; month := 3; day := 7; hour := 9; minute := 5 |} |}.

(** A world where the second query cannot connect and the others are
    answered with two items. *)
Definition world_flaky : World :=
  {| http_get := λ req,
       if String.eqb (param_q req) (default "" (QUERIES !! 1))
       then NetworkFailure "connection refused"
       else Response 200 "OK" (inr {| items := Some [item_a; item_b] |});
     response_url := req_url;
     open_for_writing := λ _, None;
     address_defect := λ _, None;
     smtp_relay := λ _, None;
     utcnow := {| year := 2025; month := 3; day := 7; hour := 9; minute := 5 |} |}.

(** A world where every query is answered with two items of its own. *)
Definition world_distinct : World :=
  {| http_get := λ req,
       Response 200 "OK"
         (inr {| items := Some
            [ {| item_title := Some "first"; item_link := Some ("https://x.com/1?q=" +:+ param_q req);
                 item_snippet := Some "one" |};
              {| item_title := Some "second"; item_link := Some ("https://x.com/2?q=" +:+ param_q req);
                 item_snippet := None |} ] |});
     response_url := req_url;
     open_for_writing := λ _, None;
     address_defect := λ _, None;
     smtp_relay := λ _, None;
     utcnow := {| year := 2025; month := 3; day := 7; hour := 9; minute := 5 |} |}.

Definition globals_set : Globals :=
  {| GOOGLE_API_KEY := Some "key"; GOOGLE_CSE_ID := Some "cx";
     RECIPIENT := Some "to@example.org"; FROM_EMAIL := Some "from@example.org";
     SMTP_SERVER := "smtp.gmail.com"; SMTP_PORT := 587; SMTP_PASS := Some "secret" |}.

Definition globals_without_cse : Globals :=
  {| GOOGLE_API_KEY := Some "key"; GOOGLE_CSE_ID := None;
     RECIPIENT := Some "to@example.org"; FROM_EMAIL := Some "from@example.org";
     SMTP_SERVER := "smtp.gmail.com"; SMTP_PORT := 587; SMTP_PASS := Some "secret" |}.

(** A world like [world_flaky] where no file can be opened for writing. *)
Definition world_readonly : World :=
  {| http_get := http_get world_flaky;
     response_url := req_url;
     open_for_writing := λ _, Some "[Errno 13] Permission denied";
     address_defect := λ _, None;
     smtp_relay := λ _, None;
     utcnow := utcnow world_flaky |}.

(** A world like [world_flaky] whose relay refuses every message. *)
Definition world_refusing : World :=
  {| http_get := http_get world_flaky;
     response_url := req_url;
     open_for_writing := λ _, None;
     address_defect := λ _, None;
     smtp_relay := λ _, Some "authentication failed";
     utcnow := utcnow world_flaky |}.

(** Settings whose recipient holds a line break. *)
Definition globals_broken_recipient : Globals :=
  {| GOOGLE_API_KEY := Some "key"; GOOGLE_CSE_ID := Some "cx";
     RECIPIENT := Some ("to@example.org" +:+ nl +:+ "Bcc: other@example.org");
     FROM_EMAIL := Some "from@example.org";
     SMTP_SERVER := "smtp.gmail.com"; SMTP_PORT := 587; SMTP_PASS := Some "secret" |}.

Definition state0 : State := {| files := ∅; trace := [] |}.


(** A record whose title is the empty string. *)
Definition rec_emptytitle : JobRecord :=
  {| title := Some ""; url := Some "https://x.com/c"; snippet := Some "third" |}.

(** A state with one file in a directory. *)
Definition state_with_file : State :=
  {| files := {[ "out/report.csv" := "title,url,snippet" ]}; trace := [] |}.

(** ** Reasoning about the loop *)

Module DedupeFacts.
Import Dedupe.
Export DedupeAux.

Lemma filter_none {A} (P : A → Prop) `{!∀ x, Decision (P x)} (l : list A) :
  (∀ x, x ∈ l → ¬ P x) → filter P l = [].
Proof.
  induction l as [|x l IH]; intros Hall; [done|].
  rewrite filter_cons_False by (apply Hall; left).
  apply IH. intros y Hy. apply Hall. by right.
Qed.

Lemma loop_sift l : ∀ seen out,
  loop (seen, out) l = (marks seen l, out ++ sift seen l).
Proof.
  induction l as [|r l IH]; intros seen out; simpl.
  - by rewrite app_nil_r.
  - unfold loop in *. simpl.
    destruct (truthy (url r) && bool_decide (url r ∉ seen)).
    + rewrite IH. by rewrite <- app_assoc.
    + apply IH.
Qed.

Lemma dedupe_sift l : dedupe l = sift ∅ l.
Proof. unfold dedupe. by rewrite loop_sift. Qed.

Lemma marks_mono l : ∀ seen, seen ⊆ marks seen l.
Proof.
  induction l as [|r l IH]; intros seen; simpl; [done|].
  destruct (_ && _); [|done].
  etrans; [|apply IH]. set_solver.
Qed.

Lemma marks_urls l : ∀ seen r,
  r ∈ l → truthy (url r) = true → url r ∈ marks seen l.
Proof.
  induction l as [|x l IH]; intros seen r Hin Ht; [by apply elem_of_nil in Hin|].
  apply elem_of_cons in Hin as [->|Hin]; simpl.
  - rewrite Ht. simpl. case_bool_decide.
    + apply marks_mono. set_solver.
    + apply marks_mono. by destruct (decide (url x ∈ seen)).
  - destruct (_ && _); by apply IH.
Qed.

Lemma sift_app l1 : ∀ seen l2,
  sift seen (l1 ++ l2) = sift seen l1 ++ sift (marks seen l1) l2.
Proof.
  induction l1 as [|r l1 IH]; intros seen l2; simpl; [done|].
  destruct (_ && _); simpl; by rewrite IH.
Qed.

Lemma sift_elem l : ∀ seen r,
  r ∈ sift seen l → r ∈ l ∧ truthy (url r) = true ∧ url r ∉ seen.
Proof.
  induction l as [|x l IH]; intros seen r; simpl; [by intros ?%elem_of_nil|].
  destruct (truthy (url x) && bool_decide (url x ∉ seen)) eqn:E.
  - apply andb_true_iff in E as [Ht Hn]. apply bool_decide_eq_true in Hn.
    intros [->|Hin]%elem_of_cons.
    + split; [left|done].
    + destruct (IH _ _ Hin) as (? & ? & ?). split; [by right|]. split; [done|set_solver].
  - intros Hin. destruct (IH _ _ Hin) as (? & ? & ?). split; [by right|done].
Qed.

Lemma sift_sublist l : ∀ seen, sublist (sift seen l) l.
Proof.
  induction l as [|x l IH]; intros seen; simpl; [constructor|].
  destruct (_ && _); [apply sublist_skip|apply sublist_cons]; apply IH.
Qed.

Lemma sift_NoDup l : ∀ seen, NoDup (url <$> sift seen l).
Proof.
  induction l as [|x l IH]; intros seen; simpl; [constructor|].
  destruct (_ && _); [|apply IH].
  rewrite fmap_cons. constructor; [|apply IH].
  intros (r & Hr & Hin)%list_elem_of_fmap.
  apply sift_elem in Hin as (_ & _ & Hn). rewrite <- Hr in Hn. set_solver.
Qed.

(** A list whose records all pass the test is left as it is. *)
Lemma sift_fixed l : ∀ seen,
  (∀ r, r ∈ l → truthy (url r) = true ∧ url r ∉ seen) →
  NoDup (url <$> l) →
  sift seen l = l.
Proof.
  induction l as [|x l IH]; intros seen Hall Hnd; simpl; [done|].
  rewrite fmap_cons in Hnd. apply NoDup_cons in Hnd as [Hx Hnd].
  destruct (Hall x) as [Ht Hn]; [left|].
  rewrite Ht. rewrite bool_decide_eq_true_2 by done. simpl. f_equal.
  apply IH; [|done].
  intros r Hr. destruct (Hall r) as [Ht' Hn']; [by right|]. split; [done|].
  intros [Heq%elem_of_singleton|?]%elem_of_union; [|done].
  apply Hx. rewrite <- Heq. apply list_elem_of_fmap. eauto.
Qed.

(** The first record carrying a url is the only one the loop keeps of it. *)
Lemma sift_first l : ∀ seen i r0,
  truthy (url r0) = true → url r0 ∉ seen →
  l !! i = Some r0 →
  (∀ k r, k < i → l !! k = Some r → url r ≠ url r0) →
  filter (λ r, url r = url r0) (sift seen l) = [r0].
Proof.
  induction l as [|x l IH]; intros seen i r0 Ht Hn Hi Hfirst; [done|].
  destruct i as [|i]; simpl in Hi.
  - injection Hi as ->. simpl. rewrite Ht, bool_decide_eq_true_2 by done. simpl.
    rewrite filter_cons_True by done. f_equal.
    apply filter_none. intros r Hr Heq.
    apply sift_elem in Hr as (_ & _ & Hr). rewrite Heq in Hr. set_solver.
  - assert (url x ≠ url r0) as Hx by (apply (Hfirst 0); [lia|done]).
    assert (∀ k r, k < i → l !! k = Some r → url r ≠ url r0) as Hfirst'
      by (intros k r Hk Hl; apply (Hfirst (S k)); [lia|done]).
    simpl. destruct (_ && _).
    + rewrite filter_cons_False by done.
      apply (IH _ i); [done| |done|done]. set_solver.
    + by apply (IH _ i).
Qed.

(** The record at a position whose test passes is in the output, after
    the records kept before it. *)
Lemma sift_kept_position l seen i r :
  l !! i = Some r →
  truthy (url r) = true → url r ∉ marks seen (take i l) →
  sift seen l !! length (sift seen (take i l)) = Some r.
Proof.
  intros Hi Ht Hn.
  replace (sift seen l) with (sift seen (take i l ++ r :: drop (S i) l))
    by (by rewrite take_drop_middle).
  rewrite sift_app. simpl. rewrite Ht, bool_decide_eq_true_2 by done. simpl.
  by rewrite list_lookup_middle.
Qed.

Lemma sift_take_length l seen i j r :
  l !! i = Some r →
  truthy (url r) = true → url r ∉ marks seen (take i l) →
  i < j →
  length (sift seen (take i l)) < length (sift seen (take j l)).
Proof.
  intros Hi Ht Hn Hij.
  assert (take j l = take i l ++ r :: take (j - S i) (drop (S i) l)) as ->.
  { assert (length (take i l) = i) as Hlen.
    { rewrite length_take. apply lookup_lt_Some in Hi. lia. }
    transitivity (take (length (take i l) + S (j - S i))
                       (take i l ++ r :: drop (S i) l)).
    - rewrite take_drop_middle by done. f_equal. lia.
    - by rewrite take_app_add. }
  rewrite sift_app. simpl. rewrite Ht, bool_decide_eq_true_2 by done. simpl.
  rewrite length_app. simpl. lia.
Qed.

Lemma kept_at_spec l i :
  kept_at l i = true →
  ∃ r, l !! i = Some r ∧ truthy (url r) = true ∧ url r ∉ marks ∅ (take i l).
Proof.
  unfold kept_at. destruct (l !! i) as [r|]; [|done].
  rewrite loop_sift. simpl. intros [Ht Hn]%andb_true_iff.
  apply bool_decide_eq_true in Hn. eauto.
Qed.

Lemma marks_origin l : ∀ seen u,
  u ∈ marks seen l →
  u ∈ seen ∨ ∃ r, r ∈ l ∧ url r = u ∧ truthy (url r) = true.
Proof.
  induction l as [|x l IH]; intros seen u; simpl; [by left|].
  destruct (truthy (url x) && bool_decide (url x ∉ seen)) eqn:E.
  - apply andb_true_iff in E as [Ht _]. intros Hu.
    destruct (IH _ _ Hu) as [[Hx%elem_of_singleton|Hs]%elem_of_union|(r & Hr & Hur & Htr)].
    + right. exists x. split; [left|done].
    + by left.
    + right. exists r. split; [by right|done].
  - intros Hu. destruct (IH _ _ Hu) as [Hs|(r & Hr & Hur & Htr)]; [by left|].
    right. exists r. split; [by right|done].
Qed.

(** The test passes at a position exactly when the record there has a
    non-empty url that no earlier record has. *)
Lemma kept_at_first l i :
  kept_at l i = true ↔
  ∃ r, l !! i = Some r ∧ truthy (url r) = true
       ∧ ∀ k r', k < i → l !! k = Some r' → url r' ≠ url r.
Proof.
  split.
  - intros (r & Hi & Ht & Hn)%kept_at_spec. exists r. split; [done|]. split; [done|].
    intros k r' Hk Hk' Heq. apply Hn. rewrite <- Heq.
    apply marks_urls; [|by rewrite Heq].
    apply list_elem_of_lookup. exists k. by rewrite lookup_take_lt.
  - intros (r & Hi & Ht & Hfirst). unfold kept_at. rewrite Hi, loop_sift. simpl.
    rewrite Ht. simpl. apply bool_decide_eq_true. intros Hin.
    apply marks_origin in Hin as [Hin|(r' & [k Hk]%list_elem_of_lookup & Heq & _)];
      [set_solver|].
    assert (k < i) by (apply lookup_lt_Some in Hk; rewrite length_take in Hk; lia).
    rewrite lookup_take_lt in Hk by done. by apply (Hfirst k r').
Qed.

Lemma kept_at_app_l l l' i :
  i < length l → kept_at (l ++ l') i = kept_at l i.
Proof.
  intros Hi. unfold kept_at.
  rewrite lookup_app_l by done. by rewrite take_app_le by lia.
Qed.

(** The output is made of the records at the positions whose test passes,
    in the order of the positions. *)
Lemma dedupe_kept l :
  dedupe l
  = omap (λ i, if kept_at l i then l !! i else None) (seq 0 (length l)).
Proof.
  induction l as [|r l IH] using rev_ind; [done|].
  rewrite length_app, Nat.add_comm. cbn [length plus]. rewrite seq_S, omap_app.
  rewrite dedupe_sift, sift_app, <- dedupe_sift, IH. f_equal.
  - apply list_omap_ext, Forall2_same_length_lookup_2; [done|].
    intros i a b Ha Hb. assert (a = b) as -> by congruence.
    apply lookup_seq in Hb as [-> Hlt]. simpl.
    rewrite kept_at_app_l by done.
    destruct (kept_at l i); [|done]. by rewrite lookup_app_l.
  - simpl. unfold kept_at. rewrite list_lookup_middle by done.
    rewrite take_app_length, loop_sift. simpl.
    by destruct (truthy (url r) && bool_decide (url r ∉ marks ∅ l)).
Qed.

Lemma dedupe_sublist l : sublist (dedupe l) l.
Proof. rewrite dedupe_sift. apply sift_sublist. Qed.

End DedupeFacts.

(** ** Reasoning about the csv writer and reader *)

Module CsvFacts.
Import Csv CsvAux.

Lemma append_cons (x : ascii) (a b : string) : String x a +:+ b = String x (a +:+ b).
Proof. reflexivity. Qed.

Lemma append_nil_l (b : string) : "" +:+ b = b.
Proof. reflexivity. Qed.

Lemma append_assoc (a b c : string) : (a +:+ b) +:+ c = a +:+ b +:+ c.
Proof.
  induction a as [|x a IH]; [done|].
  rewrite !append_cons. by rewrite IH.
Qed.

Lemma append_nil_r (a : string) : a +:+ "" = a.
Proof.
  induction a as [|x a IH]; [done|].
  rewrite append_cons. by rewrite IH.
Qed.

Lemma code_points_app (a b : string) :
  code_points (a +:+ b) = (code_points a + code_points b)%N.
Proof.
  induction a as [|x a IH]; [done|].
  rewrite append_cons. cbn [code_points]. rewrite IH. lia.
Qed.

Lemma splitlines_nonempty s : s ≠ "" → splitlines s ≠ [].
Proof.
  destruct s as [|c s]; [done|]. intros _. simpl.
  destruct (Ascii.eqb c LF); [done|].
  destruct (Ascii.eqb c CR).
  - destruct s as [|c' s']; [done|]. by destruct (Ascii.eqb c' LF).
  - by destruct (splitlines s).
Qed.

Lemma bind_Some {A B} (k : A → option B) (x : A) : Some x ≫= k = k x.
Proof. reflexivity. Qed.

Lemma append_nonempty_r (a b : string) : b ≠ "" → a +:+ b ≠ "".
Proof. intros Hb. destruct a; [done|]. by rewrite append_cons. Qed.

Lemma special_false c :
  special c = false →
  Ascii.eqb c COMMA = false ∧ Ascii.eqb c QUOTE = false
  ∧ Ascii.eqb c CR = false ∧ Ascii.eqb c LF = false.
Proof.
  unfold special. intros H.
  apply orb_false_iff in H as [H HLF].
  apply orb_false_iff in H as [H HCR].
  by apply orb_false_iff in H as [HC HQ].
Qed.

Lemma after_field_open st s :
  st = START_RECORD ∨ st = START_FIELD →
  after_field st s = START_RECORD ∨ after_field st s = START_FIELD
  ∨ after_field st s = IN_FIELD ∨ after_field st s = QUOTE_IN_QUOTED_FIELD.
Proof.
  intros Hst. destruct s as [|c s]; cbn [after_field].
  - destruct Hst; auto.
  - destruct (has_special _); auto.
Qed.

Lemma writerow_three a b c :
  writerow [a; b; c]
  = write_field a +:+ String COMMA (write_field b +:+ String COMMA
      (write_field c +:+ lineterminator)).
Proof.
  unfold writerow.
  transitivity ((write_field a +:+ String COMMA (write_field b +:+ String COMMA
      (write_field c))) +:+ lineterminator).
  { by destruct a. }
  rewrite append_assoc, append_cons. do 2 f_equal.
  by rewrite append_assoc, append_cons.
Qed.

Lemma join_empty_cons (x : string) (xs : list string) :
  join "" (x :: xs) = x +:+ join "" xs.
Proof. destruct xs; [by rewrite append_nil_r|done]. Qed.

Lemma widest_cons (r : JobRecord) (rs : list JobRecord) :
  widest (r :: rs)
  = N.max (code_points (cell (title r)))
      (N.max (code_points (cell (url r)))
         (N.max (code_points (cell (snippet r))) (widest rs))).
Proof. reflexivity. Qed.

Lemma widest_fits (rs : list JobRecord) :
  Forall (λ r, fits (widest rs) (row_of r)) rs.
Proof.
  induction rs as [|r rs IH]; [done|].
  rewrite widest_cons. apply Forall_cons. split.
  - unfold fits, row_of. repeat (apply Forall_cons; split; [lia|]). done.
  - eapply Forall_impl; [done|]. intros r' Hr'.
    unfold fits in *. eapply Forall_impl; [done|]. intros x Hx. cbn beta in Hx. lia.
Qed.

Lemma fits_mono (limit limit' : N) (row : list string) :
  (limit ≤ limit')%N → fits limit row → fits limit' row.
Proof.
  unfold fits. intros Hle Hrow. eapply Forall_impl; [done|].
  intros s Hs. cbn beta in Hs. lia.
Qed.

(** The reader with a limit on the size of a field. *)
Section Limit.

Variable limit : N.

(** Solves the bound on a part of a field from the bound on the field. *)
Ltac fit Hfit :=
  revert Hfit; rewrite ?append_assoc, ?code_points_app; cbn [code_points]; lia.

Lemma add_char st f fs a next :
  (code_points (f +:+ String a "") ≤ limit)%N →
  parse_add_char limit (mkReader st f fs) a next
  = Some (mkReader next (f +:+ String a "") fs).
Proof.
  unfold parse_add_char. cbn [field fields]. rewrite code_points_app.
  cbn [code_points]. destruct (continuation a); [done|]. intros Hfit.
  assert ((code_points f <? limit)%N = true) as -> by (apply N.ltb_lt; lia).
  done.
Qed.

(** A character that ends no line is fed to the automaton and the rest of
    the text follows on the same line. *)
Lemma rows_plain r c rest :
  Ascii.eqb c LF = false → Ascii.eqb c CR = false → rest ≠ "" →
  rows_from limit r (splitlines (String c rest))
  = r' ← parse_process_char limit r (Chr c); rows_from limit r' (splitlines rest).
Proof.
  intros HLF HCR Hrest. cbn [splitlines]. rewrite HLF, HCR.
  destruct (splitlines rest) as [|line lines] eqn:E.
  { by apply splitlines_nonempty in Hrest. }
  cbn [rows_from feed_line].
  by destruct (parse_process_char limit r (Chr c)).
Qed.

Lemma quoted_step f fs a :
  Ascii.eqb a QUOTE = false →
  (code_points (f +:+ String a "") ≤ limit)%N →
  parse_process_char limit (mkReader IN_QUOTED_FIELD f fs) (Chr a)
  = Some (mkReader IN_QUOTED_FIELD (f +:+ String a "") fs).
Proof.
  intros Ha Hfit. unfold parse_process_char. cbn [state]. rewrite Ha.
  by apply add_char.
Qed.

Lemma rows_quoted_LF f fs rest :
  (code_points (f +:+ String LF "") ≤ limit)%N →
  rows_from limit (mkReader IN_QUOTED_FIELD f fs) (splitlines (String LF rest))
  = rows_from limit (mkReader IN_QUOTED_FIELD (f +:+ String LF "") fs) (splitlines rest).
Proof.
  intros Hfit. cbn [splitlines]. change (Ascii.eqb LF LF) with true. cbv iota.
  cbn [rows_from feed_line]. rewrite quoted_step by done. rewrite bind_Some.
  cbn. by rewrite bool_decide_eq_false_2 by done.
Qed.

Lemma rows_quoted_CRLF f fs rest :
  (code_points (f +:+ String CR (String LF "")) ≤ limit)%N →
  rows_from limit (mkReader IN_QUOTED_FIELD f fs) (splitlines (String CR (String LF rest)))
  = rows_from limit (mkReader IN_QUOTED_FIELD (f +:+ String CR (String LF "")) fs)
      (splitlines rest).
Proof.
  intros Hfit.
  cbn [splitlines]. change (Ascii.eqb CR LF) with false. change (Ascii.eqb CR CR) with true.
  change (Ascii.eqb LF LF) with true. cbv iota.
  cbn [rows_from feed_line].
  rewrite quoted_step by (done || fit Hfit). rewrite bind_Some.
  rewrite quoted_step by (done || fit Hfit). rewrite bind_Some.
  cbn. rewrite bool_decide_eq_false_2 by done.
  by rewrite append_assoc.
Qed.

Lemma rows_quoted_CR f fs rest :
  (code_points (f +:+ String CR "") ≤ limit)%N →
  (∀ rest', rest ≠ String LF rest') →
  rows_from limit (mkReader IN_QUOTED_FIELD f fs) (splitlines (String CR rest))
  = rows_from limit (mkReader IN_QUOTED_FIELD (f +:+ String CR "") fs) (splitlines rest).
Proof.
  intros Hfit Hrest. cbn [splitlines]. change (Ascii.eqb CR LF) with false.
  change (Ascii.eqb CR CR) with true. cbv iota.
  assert (rows_from limit (mkReader IN_QUOTED_FIELD f fs)
            (String CR "" :: splitlines rest)
          = rows_from limit (mkReader IN_QUOTED_FIELD (f +:+ String CR "") fs)
              (splitlines rest)) as Hline.
  { cbn [rows_from feed_line]. rewrite quoted_step by done. rewrite bind_Some.
    cbn. by rewrite bool_decide_eq_false_2 by done. }
  destruct rest as [|c' rest']; [done|].
  destruct (Ascii.eqb c' LF) eqn:E.
  - apply Ascii.eqb_eq in E as ->. by destruct (Hrest rest').
  - done.
Qed.

Ltac reader_norm :=
  unfold start_field, goto, parse_save_field;
  cbn [state field fields is_newline orb];
  rewrite ?bind_Some.

(** The text of a field inside quotes, up to the closing quote. *)
Lemma rows_quoted_body n : ∀ s, String.length s ≤ n → ∀ f fs tail,
  (code_points (f +:+ s) ≤ limit)%N →
  tail ≠ "" →
  rows_from limit (mkReader IN_QUOTED_FIELD f fs)
            (splitlines (double_quotes s +:+ String QUOTE tail))
  = rows_from limit (mkReader QUOTE_IN_QUOTED_FIELD (f +:+ s) fs) (splitlines tail).
Proof.
  assert (∀ f fs tail, tail ≠ "" →
    rows_from limit (mkReader IN_QUOTED_FIELD f fs) (splitlines (String QUOTE tail))
    = rows_from limit (mkReader QUOTE_IN_QUOTED_FIELD f fs) (splitlines tail)) as Hclose.
  { intros f fs tail Htail. rewrite rows_plain by done. reflexivity. }
  induction n as [|n IH]; intros s Hlen f fs tail Hfit Htail.
  - destruct s; [|simpl in Hlen; lia].
    cbn [double_quotes]. rewrite append_nil_l, append_nil_r. by apply Hclose.
  - destruct s as [|c s].
    { cbn [double_quotes]. rewrite append_nil_l, append_nil_r. by apply Hclose. }
    simpl in Hlen. cbn [double_quotes].
    destruct (Ascii.eqb c QUOTE) eqn:EQ.
    { apply Ascii.eqb_eq in EQ as ->. rewrite !append_cons.
      rewrite rows_plain by done.
      unfold parse_process_char at 1. cbn [state].
      change (Ascii.eqb QUOTE QUOTE) with true. cbv iota. reader_norm.
      rewrite rows_plain by (try done; by destruct (double_quotes s)).
      unfold parse_process_char at 1. cbn [state].
      change (Ascii.eqb QUOTE QUOTE) with true. cbv iota.
      rewrite add_char by fit Hfit. reader_norm.
      rewrite IH by (done || lia || fit Hfit). by rewrite append_assoc. }
    rewrite append_cons.
    destruct (Ascii.eqb c LF) eqn:ELF.
    { apply Ascii.eqb_eq in ELF as ->. rewrite rows_quoted_LF by fit Hfit.
      rewrite IH by (done || lia || fit Hfit). by rewrite append_assoc. }
    destruct (Ascii.eqb c CR) eqn:ECR.
    { apply Ascii.eqb_eq in ECR as ->.
      destruct s as [|c' s'].
      - cbn [double_quotes]. rewrite append_nil_l.
        rewrite rows_quoted_CR by done. by rewrite Hclose.
      - destruct (Ascii.eqb c' LF) eqn:ELF'.
        + apply Ascii.eqb_eq in ELF' as ->. cbn [double_quotes].
          change (Ascii.eqb LF QUOTE) with false. cbv iota. rewrite append_cons.
          rewrite rows_quoted_CRLF by fit Hfit. simpl in Hlen.
          rewrite IH by (done || lia || fit Hfit). by rewrite append_assoc.
        + rewrite rows_quoted_CR.
          * rewrite IH by (done || lia || fit Hfit). by rewrite append_assoc.
          * fit Hfit.
          * intros rest'. cbn [double_quotes].
            destruct (Ascii.eqb c' QUOTE) eqn:EQ'.
            -- rewrite append_cons. intros [=].
            -- rewrite append_cons. intros [= Hc _]. rewrite Hc in ELF'.
               by rewrite Ascii.eqb_refl in ELF'. }
    rewrite rows_plain by (try done; by destruct (double_quotes s)).
    unfold parse_process_char at 1. cbn [state]. rewrite EQ.
    rewrite add_char by fit Hfit. reader_norm.
    rewrite IH by (done || lia || fit Hfit). by rewrite append_assoc.
Qed.

(** The text of a field written without quotes. *)
Lemma rows_unquoted_body s : ∀ f fs tail,
  has_special s = false → tail ≠ "" →
  (code_points (f +:+ s) ≤ limit)%N →
  rows_from limit (mkReader IN_FIELD f fs) (splitlines (s +:+ tail))
  = rows_from limit (mkReader IN_FIELD (f +:+ s) fs) (splitlines tail).
Proof.
  induction s as [|c s IH]; intros f fs tail Hs Htail Hfit.
  - by rewrite append_nil_l, append_nil_r.
  - cbn [has_special] in Hs. apply orb_false_iff in Hs as [Hc Hs].
    apply special_false in Hc as (HC & HQ & HCR & HLF).
    rewrite append_cons.
    rewrite rows_plain by (try done; by apply append_nonempty_r).
    unfold parse_process_char at 1. cbn [state is_newline]. rewrite HLF, HCR, HC.
    cbn [orb]. rewrite add_char by fit Hfit. rewrite bind_Some.
    rewrite IH by (done || fit Hfit). by rewrite append_assoc.
Qed.

(** A field written without quotes that is longer than the limit stops
    the reader. *)
Lemma rows_unquoted_overflow s : ∀ f fs tail,
  has_special s = false → tail ≠ "" →
  (code_points f ≤ limit)%N → (limit < code_points (f +:+ s))%N →
  rows_from limit (mkReader IN_FIELD f fs) (splitlines (s +:+ tail)) = None.
Proof.
  induction s as [|c s IH]; intros f fs tail Hs Htail Hf Hlong.
  - rewrite append_nil_r in Hlong. lia.
  - cbn [has_special] in Hs. apply orb_false_iff in Hs as [Hc Hs].
    apply special_false in Hc as (HC & HQ & HCR & HLF).
    rewrite append_cons.
    rewrite rows_plain by (try done; by apply append_nonempty_r).
    unfold parse_process_char at 1. cbn [state is_newline]. rewrite HLF, HCR, HC.
    cbn [orb]. unfold parse_add_char. cbn [field fields].
    destruct (continuation c) eqn:Hcont; cbn [orb].
    + rewrite bind_Some. apply IH; try done.
      * rewrite code_points_app. cbn [code_points]. rewrite Hcont. lia.
      * by rewrite append_assoc.
    + destruct (code_points f <? limit)%N eqn:Hlt; [|done].
      apply N.ltb_lt in Hlt. rewrite bind_Some. apply IH; try done.
      * rewrite code_points_app. cbn [code_points]. rewrite Hcont. lia.
      * by rewrite append_assoc.
Qed.

Lemma rows_field st s fs tail :
  st = START_RECORD ∨ st = START_FIELD →
  (∃ t, tail = String COMMA t ∨ tail = String CR t) →
  (code_points s ≤ limit)%N →
  rows_from limit (mkReader st "" fs) (splitlines (write_field s +:+ tail))
  = rows_from limit (mkReader (after_field st s) s fs) (splitlines tail).
Proof.
  intros Hst [t Ht] Hfit.
  assert (tail ≠ "") as Htail by (by destruct Ht as [-> | ->]).
  unfold write_field. destruct s as [|c s]; [done|].
  destruct (has_special (String c s)) eqn:Hsp; cbn [after_field]; rewrite Hsp.
  - rewrite append_cons, append_assoc, append_cons, append_nil_l.
    rewrite rows_plain by (try done; by apply append_nonempty_r).
    replace (parse_process_char limit (mkReader st "" fs) (Chr QUOTE))
      with (Some (mkReader IN_QUOTED_FIELD "" fs))
      by (by destruct Hst as [-> | ->]).
    rewrite bind_Some.
    by rewrite (rows_quoted_body (String.length (String c s))) by done.
  - pose proof Hsp as Hsp'. cbn [has_special] in Hsp'.
    apply orb_false_iff in Hsp' as [Hc Hs].
    apply special_false in Hc as (HC & HQ & HCR & HLF).
    rewrite append_cons.
    rewrite rows_plain by (try done; by apply append_nonempty_r).
    replace (parse_process_char limit (mkReader st "" fs) (Chr c))
      with (Some (mkReader IN_FIELD (String c "") fs)).
    2:{ symmetry.
        destruct Hst as [-> | ->]; unfold parse_process_char; cbn [state is_newline];
        unfold start_field; cbn [is_newline]; rewrite HLF, HCR, HQ, HC; cbn [orb];
        (rewrite add_char by (rewrite append_nil_l; fit Hfit)); done. }
    rewrite bind_Some. by rewrite rows_unquoted_body by done.
Qed.

(** A comma after a field closes it. *)
Lemma rows_comma st f fs tail :
  st = START_RECORD ∨ st = START_FIELD ∨ st = IN_FIELD ∨ st = QUOTE_IN_QUOTED_FIELD →
  tail ≠ "" →
  rows_from limit (mkReader st f fs) (splitlines (String COMMA tail))
  = rows_from limit (mkReader START_FIELD "" (fs ++ [f])) (splitlines tail).
Proof.
  intros Hst Htail. rewrite rows_plain by done.
  by destruct Hst as [-> | [-> | [-> | ->]]].
Qed.

(** The line terminator after a field closes the field and the record. *)
Lemma rows_line_end st f fs tail :
  st = START_FIELD ∨ st = IN_FIELD ∨ st = QUOTE_IN_QUOTED_FIELD →
  rows_from limit (mkReader st f fs) (splitlines (lineterminator +:+ tail))
  = rows ← rows_from limit parse_reset (splitlines tail); Some ((fs ++ [f]) :: rows).
Proof. by intros [-> | [-> | ->]]. Qed.

(** A record of three fields is read back as written. *)
Lemma rows_record a b c tail :
  fits limit [a; b; c] →
  rows_from limit parse_reset (splitlines (writerow [a; b; c] +:+ tail))
  = rows ← rows_from limit parse_reset (splitlines tail); Some ([a; b; c] :: rows).
Proof.
  intros Hfits.
  apply Forall_cons in Hfits as [Ha Hfits].
  apply Forall_cons in Hfits as [Hb Hfits].
  apply Forall_cons in Hfits as [Hc _].
  rewrite writerow_three. unfold parse_reset.
  rewrite !append_assoc, append_cons, append_assoc, append_cons, append_assoc.
  rewrite rows_field; [|by left|eauto|done].
  rewrite rows_comma; [|apply after_field_open; by left|by apply append_nonempty_r].
  rewrite rows_field; [|by right|eauto|done].
  rewrite rows_comma; [|apply after_field_open; by right|by apply append_nonempty_r].
  rewrite rows_field; [|by right|exists (String LF tail); by right|done].
  change (String CR (String LF tail)) with (lineterminator +:+ tail).
  rewrite rows_line_end; [done|].
  destruct c as [|x c]; cbn [after_field]; [auto|]. destruct (has_special _); auto.
Qed.

Lemma read_rows (rs : list JobRecord) :
  Forall (λ r, fits limit (row_of r)) rs →
  rows_from limit parse_reset
    (splitlines (join "" ((λ r, writerow (row_of r)) <$> rs)))
  = Some (row_of <$> rs).
Proof.
  induction rs as [|r rs IH]; [done|].
  intros [Hr Hrs]%Forall_cons.
  rewrite fmap_cons, join_empty_cons. unfold row_of at 1.
  rewrite rows_record, IH; done.
Qed.

(** The text of the file is read back as the header and the rows. *)
Lemma read_csv_text (rs : list JobRecord) :
  (7 ≤ limit)%N →
  Forall (λ r, fits limit (row_of r)) rs →
  rows_from limit parse_reset (splitlines (csv_text rs))
  = Some (fieldnames :: (row_of <$> rs)).
Proof.
  intros Hlimit Hrs. unfold csv_text, writeheader, fieldnames.
  rewrite rows_record, read_rows; [done|done|].
  repeat (apply Forall_cons; split; [cbn; lia|]). done.
Qed.

End Limit.


End CsvFacts.

(** ** Reasoning about lines, numbers and dates *)

Module TextFacts.
Import TextAux CsvFacts.


Lemma plain_byte_tests (c : ascii) :
  plain_byte c = true →
  Ascii.eqb c CR = false ∧ line_break c = false ∧ Ascii.eqb c "133" = false
  ∧ Ascii.eqb c "168" = false ∧ Ascii.eqb c "169" = false.
Proof.
  unfold plain_byte. intros H%negb_true_iff.
  apply orb_false_iff in H as [H H169].
  apply orb_false_iff in H as [H H168].
  apply orb_false_iff in H as [H H133].
  by apply orb_false_iff in H as [Hbreak HCR].
Qed.

(** A text free of the bytes of line boundaries has at most one line. *)
Lemma plain_one_line (s : string) : all_plain s = true → one_line s.
Proof.
  unfold one_line, all_plain. induction s as [|c s IH]; [simpl; lia|].
  cbn [list_ascii_of_string forallb]. intros [Hc Hs]%andb_true_iff.
  specialize (IH Hs).
  apply plain_byte_tests in Hc as (HCR & Hbreak & _).
  assert (length (match str_splitlines s with
                  | [] => [String c ""]
                  | line :: lines => String c line :: lines
                  end) ≤ 1) as Hcarry.
  { destruct (str_splitlines s) as [|line lines]; simpl in *; lia. }
  cbn [str_splitlines]. rewrite HCR, Hbreak.
  destruct (Ascii.eqb c "194").
  { destruct s as [|c' s']; [done|].
    cbn [list_ascii_of_string forallb] in Hs. apply andb_true_iff in Hs as [Hc' _].
    apply plain_byte_tests in Hc' as (_ & _ & -> & _). done. }
  destruct (Ascii.eqb c "226"); [|done].
  destruct s as [|c1 [|c2 s'']]; [done|done|].
  cbn [list_ascii_of_string forallb] in Hs.
  apply andb_true_iff in Hs as [_ Hs]. apply andb_true_iff in Hs as [Hc2 _].
  apply plain_byte_tests in Hc2 as (_ & _ & _ & -> & ->).
  by rewrite andb_false_r.
Qed.




Lemma pretty_N_go_length (x : N) : ∀ s,
  String.length s ≤ String.length (pretty_N_go x s).
Proof.
  induction (N.lt_wf_0 x) as [x _ IH]. intros s.
  assert (x = 0 ∨ 0 < x)%N as [->|Hx] by lia; [by rewrite pretty_N_go_0|].
  rewrite pretty_N_go_step by done.
  etrans; [|by eapply IH, N.div_lt]. simpl. lia.
Qed.

(** A number below ten is printed as one digit, a number from ten on as
    two digits or more. *)
Lemma pretty_length (n : nat) :
  if n <? 10 then String.length (pretty n) = 1 else 2 ≤ String.length (pretty n).
Proof.
  destruct (n <? 10) eqn:Hn.
  - apply Nat.ltb_lt in Hn.
    do 10 (destruct n as [|n]; [done|]). lia.
  - apply Nat.ltb_ge in Hn.
    unfold pretty, pretty_nat, pretty, pretty_N.
    case_decide; [lia|].
    rewrite pretty_N_go_step by lia.
    rewrite pretty_N_go_step by (apply N.div_str_pos; lia).
    etrans; [|apply pretty_N_go_length]. simpl. lia.
Qed.

Lemma zero_pad_2 (n : nat) : zero_pad 2 n = two_digits n.
Proof.
  unfold zero_pad, two_digits. pose proof (pretty_length n) as Hlen.
  destruct (n <? 10).
  - by rewrite Hlen.
  - by replace (2 - String.length (pretty n)) with 0 by lia.
Qed.


Lemma strftime_date (t : datetime) : strftime "%Y-%m-%d" t = iso_date t.
Proof.
  cbn [strftime]. change (Ascii.eqb "%" "%") with true.
  change (Ascii.eqb "-" "%") with false. cbv iota.
  unfold directive. cbn. rewrite !zero_pad_2.
  by rewrite append_nil_r.
Qed.

Lemma strftime_minutes (t : datetime) :
  strftime "%Y-%m-%d %H:%M UTC" t = iso_date t +:+ " " +:+ clock t +:+ " UTC".
Proof.
  transitivity (pretty (year t) +:+ "-" +:+ zero_pad 2 (month t) +:+ "-" +:+
                zero_pad 2 (day t) +:+ " " +:+ zero_pad 2 (hour t) +:+ ":" +:+
                zero_pad 2 (minute t) +:+ " UTC"); [reflexivity|].
  rewrite !zero_pad_2. unfold iso_date, clock. by rewrite !append_assoc.
Qed.



End TextFacts.

(** ** Reasoning about the script *)

Module ScriptFacts.
Import TextFacts.

Lemma log_nil st : log st [] = st.
Proof. destruct st. unfold log. simpl. by rewrite app_nil_r. Qed.

Lemma log_log st a b : log (log st a) b = log st (a ++ b).
Proof. unfold log. simpl. by rewrite app_assoc. Qed.

Lemma mails_app a b : mails (a ++ b) = mails a ++ mails b.
Proof. apply omap_app. Qed.

Lemma writes_app a b : writes (a ++ b) = writes a ++ writes b.
Proof. apply omap_app. Qed.

Lemma requests_app a b : requests (a ++ b) = requests a ++ requests b.
Proof. apply omap_app. Qed.

Section Runs.
Variable w : World.
Variable g : Globals.

Lemma google_search_run q st :
  google_search w g q 1 st
  = (match search_outcome w g q with
     | inl msg => inl (Error msg)
     | inr json => inr json
     end, log st [HttpGet (search_request g q)]).
Proof.
  unfold google_search, search_outcome, mbind, M_bind, bind, emit. simpl.
  fold (search_request g q).
  destruct (http_get w (search_request g q)) as [msg|status reason body]; [done|].
  destruct (_ && _); [done|]. by destruct body.
Qed.

Lemma search_step_run acc q st :
  search_step w g acc q st
  = (inr (acc ++ found w g q), log st (search_events w g q)).
Proof.
  unfold search_step, try_except, mbind, M_bind, bind.
  rewrite google_search_run. unfold found, search_events.
  unfold log, ret, print, emit.
  destruct (search_outcome w g q) as [msg|json]; simpl.
  - by rewrite app_nil_r, <- app_assoc.
  - done.
Qed.

Lemma for_each_search qs : ∀ acc st,
  for_each qs acc (search_step w g) st
  = (inr (acc ++ concat (found w g <$> qs)),
     log st (concat (search_events w g <$> qs))).
Proof.
  induction qs as [|q qs IH]; intros acc st; simpl.
  - by rewrite app_nil_r, log_nil.
  - unfold bind. rewrite search_step_run, IH, log_log. by rewrite <- app_assoc.
Qed.

Lemma for_each_app {A B} (xs ys : list A) (body : B → A → M B) : ∀ acc st,
  for_each (xs ++ ys) acc body st
  = bind (for_each xs acc body) (λ acc', for_each ys acc' body) st.
Proof.
  induction xs as [|x xs IH]; intros acc st; simpl; [done|].
  unfold bind. destruct (body acc x st) as [[e|acc'] st']; [done|].
  by rewrite IH.
Qed.

Lemma configured_test :
  configured g ↔
  negb (truthy (GOOGLE_API_KEY g)) || negb (truthy (GOOGLE_CSE_ID g))
  || negb (truthy (RECIPIENT g)) || negb (truthy (FROM_EMAIL g))
  || negb (truthy (SMTP_PASS g)) = false.
Proof.
  unfold configured, required_variables. simpl.
  by destruct (truthy (GOOGLE_API_KEY g)), (truthy (GOOGLE_CSE_ID g)),
    (truthy (RECIPIENT g)), (truthy (FROM_EMAIL g)), (truthy (SMTP_PASS g)).
Qed.

Lemma configured_all name field :
  configured g → (name, field) ∈ required_variables → truthy (field g) = true.
Proof.
  unfold configured. rewrite forallb_forall. intros Hall Hin.
  by apply (Hall (name, field)), list_elem_of_In.
Qed.

Lemma main_run st :
  configured g →
  main w g st
  = report w g (dedupe (concat (found w g <$> QUERIES)))
      (log st (concat (search_events w g <$> QUERIES))).
Proof.
  intros Hc%configured_test. unfold main. rewrite Hc.
  unfold mbind, M_bind, bind. by rewrite for_each_search.
Qed.

(** *** Building the message *)

Lemma header_store_parse_ok value st :
  one_line value → header_store_parse value st = (inr tt, st).
Proof.
  unfold one_line, header_store_parse. intros Hone.
  by rewrite bool_decide_eq_false_2 by lia.
Qed.

Lemma header_store_parse_cases value :
  one_line value
  ∨ ∃ msg, ∀ st, header_store_parse value st = (inl (Error msg), st).
Proof.
  unfold one_line, header_store_parse.
  destruct (decide (1 < length (str_splitlines value))) as [Hlong|Hshort].
  - right. eexists. intros st. by rewrite bool_decide_eq_true_2.
  - left. lia.
Qed.

Lemma set_address_ok value st :
  address_accepted w value → set_address w value st = (inr tt, st).
Proof.
  destruct value as [s|]; [|done]. intros [Hone Hparse].
  unfold set_address, mbind, M_bind, bind.
  rewrite header_store_parse_ok by done. by rewrite Hparse.
Qed.

Lemma set_address_cases value :
  address_accepted w value
  ∨ ∃ msg, ∀ st, set_address w value st = (inl (Error msg), st).
Proof.
  destruct value as [s|]; [|by left]. unfold set_address, mbind, M_bind, bind.
  destruct (header_store_parse_cases s) as [Hone|[msg Hmsg]].
  - destruct (address_defect w s) as [msg|] eqn:Hparse.
    + right. exists msg. intros st. by rewrite header_store_parse_ok.
    + by left.
  - right. exists msg. intros st. by rewrite Hmsg.
Qed.

(** Either the three headers are taken, or [send_email] raises at once. *)
Lemma send_email_headers subject :
  (one_line subject ∧ addresses_accepted w g)
  ∨ ∃ msg, ∀ body attachment_path st,
      send_email w g subject body attachment_path st = (inl (Error msg), st).
Proof.
  destruct (header_store_parse_cases subject) as [Hone|[msg Hmsg]].
  2:{ right. exists msg. intros body att st.
      unfold send_email, mbind, M_bind, bind. by rewrite Hmsg. }
  destruct (set_address_cases (FROM_EMAIL g)) as [Hfrom|[msg Hmsg]].
  2:{ right. exists msg. intros body att st.
      unfold send_email, mbind, M_bind, bind.
      rewrite header_store_parse_ok by done. by rewrite Hmsg. }
  destruct (set_address_cases (RECIPIENT g)) as [Hto|[msg Hmsg]].
  2:{ right. exists msg. intros body att st.
      unfold send_email, mbind, M_bind, bind.
      rewrite header_store_parse_ok by done.
      rewrite set_address_ok by done. by rewrite Hmsg. }
  by left.
Qed.

(** Runs the three assignments of headers in the goal. *)
Ltac headers_taken :=
  unfold send_email, mbind, M_bind, bind at 1 2 3;
  rewrite header_store_parse_ok by done;
  rewrite !set_address_ok by done.

Lemma send_email_plain_run subject body st :
  one_line subject → addresses_accepted w g →
  send_email w g subject body None st
  = (relay_result w g (plain_message g subject body),
     log st [Smtp (session_for g (plain_message g subject body))
                  (smtp_relay w (session_for g (plain_message g subject body)))]).
Proof.
  intros Hone [Hfrom Hto]. headers_taken.
  unfold relay_result, bind, emit, mret, M_ret, ret. simpl.
  fold (plain_message g subject body).
  fold (session_for g (plain_message g subject body)).
  by destruct (smtp_relay w _).
Qed.

(** [send_email] with the path of a file that is there. *)
Lemma send_email_attach_run subject body path data st :
  one_line subject → addresses_accepted w g →
  path ≠ "" → files st !! path = Some data →
  breaks_attachment_header (basename path) = false →
  send_email w g subject body (Some path) st
  = (relay_result w g
       {| Subject := subject; From := FROM_EMAIL g; To := RECIPIENT g;
          content := body;
          attachments := [ {| att_data := data; att_maintype := "application";
                              att_subtype := "csv"; att_filename := basename path |} ] |},
     log st
       [ FileRead path;
         Smtp (session_for g
                 {| Subject := subject; From := FROM_EMAIL g; To := RECIPIENT g;
                    content := body;
                    attachments := [ {| att_data := data; att_maintype := "application";
                                        att_subtype := "csv";
                                        att_filename := basename path |} ] |})
              (smtp_relay w (session_for g
                 {| Subject := subject; From := FROM_EMAIL g; To := RECIPIENT g;
                    content := body;
                    attachments := [ {| att_data := data; att_maintype := "application";
                                        att_subtype := "csv";
                                        att_filename := basename path |} ] |})) ]).
Proof.
  intros Hone [Hfrom Hto] Hpath Hfile Hname.
  assert (truthy (Some path) = true) as Ht by (by destruct path).
  headers_taken.
  unfold read_file, relay_result, session_for, log, bind, emit, mret, M_ret, ret, raise.
  rewrite Ht, Hfile, Hname. cbn [files trace Subject From To content attachments app].
  destruct (smtp_relay w _); cbn [files trace]; by rewrite <- !app_assoc.
Qed.

(** [send_email] with the path of a file that is not there. *)
Lemma send_email_missing_run subject body path st :
  one_line subject → addresses_accepted w g →
  path ≠ "" → files st !! path = None →
  send_email w g subject body (Some path) st = (inl (Error (no_such_file path)), st).
Proof.
  intros Hone [Hfrom Hto] Hpath Hfile.
  assert (truthy (Some path) = true) as Ht by (by destruct path).
  headers_taken. unfold read_file, bind. by rewrite Ht, Hfile.
Qed.

(** [send_email] with a file whose name cannot be put in a header. *)
Lemma send_email_bad_name_run subject body path data st :
  one_line subject → addresses_accepted w g →
  path ≠ "" → files st !! path = Some data →
  breaks_attachment_header (basename path) = true →
  ∃ msg, send_email w g subject body (Some path) st
         = (inl (Error msg), log st [FileRead path]).
Proof.
  intros Hone [Hfrom Hto] Hpath Hfile Hname.
  assert (truthy (Some path) = true) as Ht by (by destruct path).
  headers_taken. unfold read_file, bind, raise.
  rewrite Ht, Hfile, Hname. by eexists.
Qed.

Lemma one_session_relay (msg : EmailMessage) (before after : list event) :
  mails before = [] → mails after = [] →
  one_session_at_most w (relay_result w g msg)
    (before ++ Smtp (session_for g msg) (smtp_relay w (session_for g msg)) :: after).
Proof.
  intros Hb Ha.
  assert (mails (before ++ Smtp (session_for g msg) (smtp_relay w (session_for g msg))
                 :: after) = [session_for g msg]) as Hm.
  { unfold mails in *. rewrite omap_app, Hb. simpl. f_equal. exact Ha. }
  unfold one_session_at_most. rewrite Hm.
  split; [done|]. split; [done|]. by intros session [= <-].
Qed.

Lemma one_session_none (e : exn) (evs : list event) :
  mails evs = [] → one_session_at_most w (inl e) evs.
Proof.
  intros Hm. unfold one_session_at_most. rewrite Hm.
  split; [simpl; lia|]. split; [eauto|]. by intros session [=].
Qed.

(** How a call of [send_email] ends, whatever it is given: it changes no
    file, writes none, sends no request, and opens at most one session. *)
Lemma send_email_outcome subject body attachment_path st :
  ∃ evs,
    (send_email w g subject body attachment_path st).2 = log st evs
    ∧ writes evs = [] ∧ requests evs = []
    ∧ (Printed "Report sent." ∉ evs)
    ∧ one_session_at_most w (send_email w g subject body attachment_path st).1 evs.
Proof.
  destruct (send_email_headers subject) as [[Hone Hacc]|[msg Hmsg]].
  2:{ exists []. rewrite Hmsg, log_nil. cbn [fst snd].
      split; [done|]. split; [done|]. split; [done|].
      split; [by intros ?%elem_of_nil|]. by apply one_session_none. }
  assert (∀ msg, ∃ evs,
    (relay_result w g msg,
     log st [Smtp (session_for g msg) (smtp_relay w (session_for g msg))]).2 = log st evs
    ∧ writes evs = [] ∧ requests evs = []
    ∧ (Printed "Report sent." ∉ evs)
    ∧ one_session_at_most w (relay_result w g msg) evs) as Hplain.
  { intros msg. eexists. split; [reflexivity|]. split; [done|]. split; [done|].
    split; [by intros [=]%list_elem_of_singleton|].
    by apply (one_session_relay msg [] []). }
  destruct attachment_path as [path|].
  2:{ rewrite send_email_plain_run by done. apply Hplain. }
  destruct (decide (path = "")) as [->|Hpath].
  { change (send_email w g subject body (Some "") st)
      with (send_email w g subject body None st).
    rewrite send_email_plain_run by done. apply Hplain. }
  destruct (files st !! path) as [data|] eqn:Hfile.
  2:{ rewrite send_email_missing_run by done. exists []. rewrite log_nil.
      cbn [fst snd]. split; [done|]. split; [done|]. split; [done|].
      split; [by intros ?%elem_of_nil|]. by apply one_session_none. }
  destruct (breaks_attachment_header (basename path)) eqn:Hname.
  - destruct (send_email_bad_name_run subject body path data st) as [msg ->]; try done.
    eexists. split; [reflexivity|]. cbn [fst].
    split; [done|]. split; [done|].
    split; [by intros [=]%list_elem_of_singleton|]. by apply one_session_none.
  - rewrite (send_email_attach_run _ _ _ data) by done.
    eexists. split; [reflexivity|]. cbn [fst].
    split; [done|]. split; [done|]. split.
    + intros Hin. apply elem_of_cons in Hin as [[=]|Hin].
      by apply list_elem_of_singleton in Hin.
    + by apply (one_session_relay _ [FileRead path] []).
Qed.

(** *** The report *)

Lemma no_results_subject_one_line : one_line "Daily Jobs Report — No Results".
Proof. by apply plain_one_line. Qed.

Lemma report_empty_run st :
  addresses_accepted w g →
  report w g [] st
  = (relay_result w g (no_results_message w g),
     log st [Smtp (session_for g (no_results_message w g))
                  (smtp_relay w (session_for g (no_results_message w g)))]).
Proof.
  intros Hacc. unfold report, no_results_message. rewrite strftime_minutes.
  apply send_email_plain_run; [apply no_results_subject_one_line|done].
Qed.

Lemma save_csv_run results filename st :
  filename ≠ "" → open_for_writing w filename = None →
  save_csv w results filename st
  = (inr tt, {| files := <[filename := csv_text results]> (files st);
                trace := trace st ++ [FileWrite filename (csv_text results)] |}).
Proof.
  intros Hname Hopen. unfold save_csv, write_file.
  by rewrite bool_decide_eq_false_2, Hopen by done.
Qed.

Lemma save_csv_refused_run results filename msg st :
  filename ≠ "" → open_for_writing w filename = Some msg →
  save_csv w results filename st = (inl (Error msg), st).
Proof.
  intros Hname Hopen. unfold save_csv, write_file.
  by rewrite bool_decide_eq_false_2, Hopen by done.
Qed.

Lemma report_nonempty_unfold results st :
  results ≠ [] →
  report w g results st
  = (save_csv w results "daily_jobs_google.csv" ;;
     send_email w g
       ("Daily Jobs Report — " +:+ iso_date (utcnow w) +:+ " (Google Search)")
       (report_body results) (Some "daily_jobs_google.csv") ;;
     print "Report sent.") st.
Proof.
  intros Hne. unfold report. rewrite strftime_date. by destruct results.
Qed.


Lemma report_refused_run results msg st :
  results ≠ [] →
  open_for_writing w "daily_jobs_google.csv" = Some msg →
  report w g results st = (inl (Error msg), st).
Proof.
  intros Hne Hopen. rewrite report_nonempty_unfold by done.
  unfold mbind, M_bind, bind at 1.
  by rewrite (save_csv_refused_run _ _ msg) by done.
Qed.

(** How [main] goes on after the loop, whatever the world and the
    settings: no request is sent, no file but the CSV file is touched, and
    at most one session is opened. *)
Lemma report_outcome results st :
  ∃ evs,
    trace (report w g results st).2 = trace st ++ evs
    ∧ requests evs = []
    ∧ (∀ other, other ≠ "daily_jobs_google.csv" →
         files (report w g results st).2 !! other = files st !! other)
    ∧ one_session_at_most w (report w g results st).1 evs.
Proof.
  destruct results as [|r0 results'] eqn:Hres.
  { unfold report.
    destruct (send_email_outcome "Daily Jobs Report — No Results"
                ("No results found on " +:+ strftime "%Y-%m-%d %H:%M UTC" (utcnow w))
                None st) as (evs & Hst & _ & Hreq & _ & Hone).
    exists evs. rewrite Hst. by cbn [log trace files]. }
  rewrite <- Hres. assert (results ≠ []) as Hne by (by rewrite Hres).
  clear Hres r0 results'.
  destruct (open_for_writing w "daily_jobs_google.csv") as [msg|] eqn:Hopen.
  { rewrite (report_refused_run _ msg) by done. exists []. cbn [fst snd].
    rewrite app_nil_r. split; [done|]. split; [done|]. split; [done|].
    by apply one_session_none. }
  pose proof (report_nonempty_unfold results st Hne) as Hrep.
  unfold mbind, M_bind, bind at 1 in Hrep. rewrite save_csv_run in Hrep by done.
  set (st1 := {| files := _; trace := _ |}) in Hrep.
  destruct (send_email_outcome
              ("Daily Jobs Report — " +:+ iso_date (utcnow w) +:+ " (Google Search)")
              (report_body results) (Some "daily_jobs_google.csv") st1)
    as (evs & Hst & Hw & Hreq & Hp & Hlen & Hnone & Hsome).
  unfold bind in Hrep.
  destruct (send_email w g _ (report_body results) (Some "daily_jobs_google.csv") st1)
    as [[e|[]] st2] eqn:Hsend; cbn [fst snd] in *; subst st2; rewrite Hrep.
  - exists (FileWrite "daily_jobs_google.csv" (csv_text results) :: evs).
    cbn [log trace files st1 fst snd]. split; [by rewrite <- app_assoc|].
    split; [done|]. split; [intros other Hother; by rewrite lookup_insert_ne|].
    done.
  - exists (FileWrite "daily_jobs_google.csv" (csv_text results) :: evs
            ++ [Printed "Report sent."]).
    unfold print, emit. cbn [log trace files st1 fst snd].
    split; [by rewrite <- !app_assoc|].
    change (FileWrite "daily_jobs_google.csv" (csv_text results)
            :: evs ++ [Printed "Report sent."])
      with ([FileWrite "daily_jobs_google.csv" (csv_text results)]
            ++ evs ++ [Printed "Report sent."]).
    split; [by rewrite !requests_app, Hreq|].
    split; [intros other Hother; by rewrite lookup_insert_ne|].
    unfold one_session_at_most. rewrite !mails_app.
    change (mails [FileWrite "daily_jobs_google.csv" (csv_text results)]) with (@nil SmtpSession).
    change (mails [Printed "Report sent."]) with (@nil SmtpSession).
    by rewrite app_nil_l, app_nil_r.
Qed.

End Runs.

(** *** Substrings *)





End ScriptFacts.

(** ** The deduplicator: results *)

Section DedupeResults.
Import DedupeFacts.

(** C1.  In the output of [dedupe] no two records share a url (every url
    there is non-empty), and the order of the input is kept.  The output
    is made of the occurrences the loop appends, in the order of their
    positions: when the records at positions [i < j] of the input are both
    appended, the one from [i] stands before the one from [j] in the
    output.  For values: when the first occurrence of [A] in the input
    comes before the first occurrence of [B], the urls differ and both
    records are in the output, [A] stands before [B] in the output
    (first-occurrence order). *)
Theorem dedupe_unique_urls_in_first_occurrence_order (xs : list JobRecord) :
  (∀ p q a b,
      dedupe xs !! p = Some a → dedupe xs !! q = Some b →
      url a = url b → p = q)
  ∧ dedupe xs
    = omap (λ i, if kept_at xs i then xs !! i else None) (seq 0 (length xs))
  ∧ (∀ i j A B,
      xs !! i = Some A → xs !! j = Some B → i < j →
      kept_at xs i = true → kept_at xs j = true →
      ∃ p q, p < q ∧ dedupe xs !! p = Some A ∧ dedupe xs !! q = Some B)
  ∧ (∀ i j A B,
      first_occ xs i A → first_occ xs j B → i < j → url A ≠ url B →
      A ∈ dedupe xs → B ∈ dedupe xs →
      ∃ p q, p < q ∧ dedupe xs !! p = Some A ∧ dedupe xs !! q = Some B).
Proof.
  split; [|split; [apply dedupe_kept|]]; rewrite dedupe_sift; [|split].
  - intros p q a b Hp Hq Hab.
    apply (NoDup_lookup (url <$> sift ∅ xs) p q (url a)); [apply sift_NoDup| |].
    + by rewrite list_lookup_fmap, Hp.
    + by rewrite list_lookup_fmap, Hq, Hab.
  - intros i j A B HiA HjB Hij Hki Hkj.
    apply kept_at_spec in Hki as (A' & HiA' & HtA & HnA).
    apply kept_at_spec in Hkj as (B' & HjB' & HtB & HnB).
    assert (A' = A) as -> by congruence. assert (B' = B) as -> by congruence.
    exists (length (sift ∅ (take i xs))), (length (sift ∅ (take j xs))).
    split; [by apply (sift_take_length xs ∅ i j A)|].
    split; by apply sift_kept_position.
  - intros i j A B [HiA HfA] [HjB HfB] Hij Hurl HA HB.
    assert (A ≠ B) as HAB by congruence.
    rewrite <- (take_drop_middle xs i A HiA) in HA, HB |- *.
    set (l1 := take i xs) in *. set (l2 := drop (S i) xs) in *.
    assert (∀ r, r ∈ l1 → (r = A ∨ r = B) → False) as Hl1.
    { intros r [k Hk]%list_elem_of_lookup Hr. unfold l1 in Hk.
      assert (k < i) by (apply lookup_lt_Some in Hk; rewrite length_take in Hk; lia).
      rewrite lookup_take_lt in Hk by done.
      destruct Hr as [->| ->]; [by apply (HfA k)|apply (HfB k); [lia|done]]. }
    rewrite sift_app in HA, HB |- *.
    apply elem_of_app in HA as [HA|HA];
      [apply sift_elem in HA as [HA _]; destruct (Hl1 A HA); by left|].
    apply elem_of_app in HB as [HB|HB];
      [apply sift_elem in HB as [HB _]; destruct (Hl1 B HB); by right|].
    simpl in HA, HB |- *.
    destruct (truthy (url A) && bool_decide (url A ∉ marks ∅ l1)) eqn:Hfresh.
    + apply elem_of_cons in HB as [HB|HB]; [congruence|].
      apply list_elem_of_lookup in HB as [q' Hq'].
      exists (length (sift ∅ l1)), (length (sift ∅ l1) + S q'). split; [lia|]. split.
      * by rewrite list_lookup_middle.
      * rewrite lookup_app_r by lia.
        replace (length (sift ∅ l1) + S q' - length (sift ∅ l1)) with (S q') by lia.
        done.
    + apply sift_elem in HA as (_ & Ht & Hn).
      rewrite Ht, bool_decide_eq_true_2 in Hfresh by done. done.
Qed.

Lemma dedupe_order_witness :
  (∃ p q, p < q
          ∧ dedupe [rec_b; rec_a1; rec_b; rec_a2; rec_notitle] !! p = Some rec_a1
          ∧ dedupe [rec_b; rec_a1; rec_b; rec_a2; rec_notitle] !! q = Some rec_notitle)
  ∧ (∃ p q, p < q
            ∧ dedupe [rec_b; rec_a1; rec_b; rec_a2; rec_notitle] !! p = Some rec_b
            ∧ dedupe [rec_b; rec_a1; rec_b; rec_a2; rec_notitle] !! q = Some rec_a1).
Proof.
  split.
  - apply (proj1 (proj2 (proj2 (dedupe_unique_urls_in_first_occurrence_order
                                  [rec_b; rec_a1; rec_b; rec_a2; rec_notitle])))
             1 4 rec_a1 rec_notitle).
    + reflexivity.
    + reflexivity.
    + lia.
    + reflexivity.
    + reflexivity.
  - apply (proj2 (proj2 (proj2 (dedupe_unique_urls_in_first_occurrence_order
                                  [rec_b; rec_a1; rec_b; rec_a2; rec_notitle])))
             0 1 rec_b rec_a1).
    + split; [reflexivity|intros k Hk; lia].
    + split; [reflexivity|].
      intros k Hk. assert (k = 0) as -> by lia. simpl. discriminate.
    + lia.
    + discriminate.
    + vm_compute. left.
    + vm_compute. right. left.
Defined.

(** C2 as stated fails: a record without a url that occurs once in the
    input does not occur in the output. *)
Lemma dedupe_drops_record_without_url :
  truthy (url rec_nourl) = false
  ∧ times rec_nourl [rec_a1; rec_nourl] = 1
  ∧ times rec_nourl (dedupe [rec_a1; rec_nourl]) = 0
  ∧ times rec_nourl (dedupe [rec_a1; rec_nourl]) ≠ times rec_nourl [rec_a1; rec_nourl].
Proof. vm_compute. repeat split; discriminate. Qed.

(** C2, amended.  A record whose url is empty or absent never occurs in the
    output of [dedupe], however often it occurs in the input. *)
Theorem dedupe_drops_every_record_without_url (xs : list JobRecord) (r : JobRecord) :
  truthy (url r) = false → times r (dedupe xs) = 0.
Proof.
  intros Hr. unfold times. rewrite dedupe_sift.
  rewrite filter_none; [done|].
  intros x Hx ->. apply sift_elem in Hx as (_ & Ht & _). congruence.
Qed.

Lemma dedupe_drops_witness :
  times rec_emptyurl (dedupe [rec_emptyurl; rec_a1; rec_emptyurl]) = 0.
Proof.
  apply (dedupe_drops_every_record_without_url
           [rec_emptyurl; rec_a1; rec_emptyurl] rec_emptyurl).
  reflexivity.
Defined.

(** C7.  When records of the input share a non-empty url [u], the output
    holds exactly one record with that url, and it is the one met first in
    the input, with its title, url and snippet. *)
Theorem dedupe_keeps_first_of_shared_url
    (xs : list JobRecord) (u : string) (i : nat) (r0 : JobRecord) :
  u ≠ "" →
  xs !! i = Some r0 → url r0 = Some u →
  (∀ k r, k < i → xs !! k = Some r → url r ≠ Some u) →
  filter (λ r, url r = Some u) (dedupe xs) = [r0].
Proof.
  intros Hu Hi Hr0 Hfirst. rewrite dedupe_sift. rewrite <- Hr0.
  apply (sift_first xs ∅ i r0); [|set_solver|done|by rewrite Hr0].
  rewrite Hr0. by destruct u.
Qed.

Lemma dedupe_shared_url_witness :
  filter (λ r, url r = Some "https://x.com/a")
         (dedupe [rec_b; rec_a1; rec_b; rec_a2]) = [rec_a1].
Proof.
  apply (dedupe_keeps_first_of_shared_url
           [rec_b; rec_a1; rec_b; rec_a2] "https://x.com/a" 1 rec_a1).
  - discriminate.
  - reflexivity.
  - reflexivity.
  - intros k r Hk Hl. assert (k = 0) as -> by lia.
    injection Hl as <-. discriminate.
Defined.

(** C8.  Every record in the output of [dedupe] has a non-empty url. *)
Theorem dedupe_output_has_url (xs : list JobRecord) (r : JobRecord) :
  r ∈ dedupe xs → ∃ u, url r = Some u ∧ u ≠ "".
Proof.
  rewrite dedupe_sift. intros (_ & Ht & _)%sift_elem.
  destruct (url r) as [[|c u]|]; try discriminate. by exists (String c u).
Qed.

Lemma dedupe_output_has_url_witness :
  ∃ u, url rec_a1 = Some u ∧ u ≠ "".
Proof.
  apply (dedupe_output_has_url [rec_nourl; rec_a1; rec_emptyurl] rec_a1).
  vm_compute. left.
Defined.

(** C9.  [dedupe] is idempotent. *)
Theorem dedupe_idempotent (xs : list JobRecord) :
  dedupe (dedupe xs) = dedupe xs.
Proof.
  rewrite !dedupe_sift. apply sift_fixed; [|apply sift_NoDup].
  intros r (_ & Ht & _)%sift_elem. split; [done|set_solver].
Qed.

End DedupeResults.

(** ** The script: results *)

Section ScriptResults.
Import ScriptFacts.

Variable w : World.
Variable g : Globals.

Lemma search_events_quiet (qs : list string) :
  mails (concat (search_events w g <$> qs)) = []
  ∧ writes (concat (search_events w g <$> qs)) = []
  ∧ delivered (concat (search_events w g <$> qs)) = [].
Proof.
  induction qs as [|q qs (IHm & IHw & IHd)]; [done|].
  rewrite fmap_cons, concat_cons. unfold mails, writes, delivered in *.
  rewrite !omap_app, IHm, IHw, IHd. unfold search_events.
  by destruct (search_outcome w g q).
Qed.

(** C3.  When the settings are complete, the sender and the recipient
    are values the email library takes as headers, and the deduplicated
    results are empty, a run of [main] opens exactly one mail session; its
    message goes from the sender to the recipient of the settings, has a
    subject that contains [No Results], the body [No results found on]
    followed by the UTC time as year-month-day hour:minute and [UTC], and
    no attachment; no file is written.  When the relay takes the message,
    it is the one message delivered and [main] returns. *)
Theorem no_results_mail_without_attachment
    (all : list JobRecord) (st st1 : State) :
  configured g →
  addresses_accepted w g →
  for_each QUERIES [] (search_step w g) st = (inr all, st1) →
  dedupe all = [] →
  ∃ out evs msg,
    main w g st = (out, {| files := files st; trace := trace st ++ evs |})
    ∧ mails evs = [session_for g msg]
    ∧ From msg = FROM_EMAIL g ∧ To msg = RECIPIENT g
    ∧ contains "No Results" (Subject msg)
    ∧ content msg
      = "No results found on " +:+ pretty (year (utcnow w)) +:+ "-" +:+
        two_digits (month (utcnow w)) +:+ "-" +:+ two_digits (day (utcnow w)) +:+ " " +:+
        two_digits (hour (utcnow w)) +:+ ":" +:+ two_digits (minute (utcnow w)) +:+ " UTC"
    ∧ attachments msg = []
    ∧ writes evs = []
    ∧ (smtp_relay w (session_for g msg) = None →
       delivered evs = [msg] ∧ out = inr tt).
Proof.
  intros Hconf Hacc Hloop Hempty.
  rewrite for_each_search in Hloop.
  apply (f_equal fst) in Hloop. cbn [fst] in Hloop. apply (inj inr) in Hloop.
  subst all. rewrite app_nil_l in Hempty.
  rewrite main_run by done. rewrite Hempty.
  rewrite report_empty_run by done.
  set (msg := no_results_message w g).
  destruct (search_events_quiet QUERIES) as (Hm & Hw & Hd).
  exists (relay_result w g msg),
    (concat (search_events w g <$> QUERIES)
     ++ [Smtp (session_for g msg) (smtp_relay w (session_for g msg))]), msg.
  split; [by unfold log; cbn [files trace]; rewrite app_assoc|].
  split; [by rewrite mails_app, Hm|].
  split; [done|]. split; [done|].
  split; [by exists "Daily Jobs Report — ", ""|].
  split.
  { unfold msg, no_results_message, plain_message, iso_date, clock. cbn [content].
    by rewrite !CsvFacts.append_assoc. }
  split; [done|].
  split; [by rewrite writes_app, Hw|].
  intros Hrelay. unfold relay_result, delivered in *.
  by rewrite omap_app, Hd, Hrelay.
Qed.

(** C4.  When a required setting is missing or empty, [main] raises
    [SystemExit] and leaves the state as it was: no request, no other
    event.  The exit status is not zero, and the message names every
    required variable that is missing. *)
Theorem missing_configuration_aborts_before_search (st : State) :
  (∃ name field, (name, field) ∈ required_variables ∧ truthy (field g) = false) →
  ∃ msg,
    main w g st = (inl (SystemExit msg), st)
    ∧ exit_status (main w g st).1 ≠ 0%Z
    ∧ requests (trace (main w g st).2) = requests (trace st)
    ∧ ∀ name field,
        (name, field) ∈ required_variables → truthy (field g) = false →
        contains name msg.
Proof.
  intros (name & field & Hin & Hmiss).
  assert (main w g st = (inl (SystemExit missing_message), st)) as Hmain.
  { unfold main.
    destruct (negb (truthy (GOOGLE_API_KEY g)) || negb (truthy (GOOGLE_CSE_ID g))
              || negb (truthy (RECIPIENT g)) || negb (truthy (FROM_EMAIL g))
              || negb (truthy (SMTP_PASS g))) eqn:Htest; [done|].
    apply configured_test in Htest.
    rewrite (configured_all g _ _ Htest Hin) in Hmiss. discriminate. }
  exists missing_message. rewrite Hmain. split; [done|]. split; [done|].
  split; [done|].
  intros name' field' Hin' _. unfold required_variables in Hin'. unfold missing_message.
  repeat (apply elem_of_cons in Hin' as [[= -> _]|Hin']; [|]).
  - by exists "Missing required environment variables: ",
      ", GOOGLE_CSE_ID, RECIPIENT_EMAIL, SMTP_USER, SMTP_PASS".
  - by exists "Missing required environment variables: GOOGLE_API_KEY, ",
      ", RECIPIENT_EMAIL, SMTP_USER, SMTP_PASS".
  - by exists "Missing required environment variables: GOOGLE_API_KEY, GOOGLE_CSE_ID, ",
      ", SMTP_USER, SMTP_PASS".
  - by exists "Missing required environment variables: GOOGLE_API_KEY, GOOGLE_CSE_ID, RECIPIENT_EMAIL, ",
      ", SMTP_PASS".
  - by exists "Missing required environment variables: GOOGLE_API_KEY, GOOGLE_CSE_ID, RECIPIENT_EMAIL, SMTP_USER, ",
      "".
  - by apply elem_of_nil in Hin'.
Qed.

(** C5.  When the loop of [main] reaches a query [q] of [QUERIES] and
    [google_search(q)] raises an error, the turn of the loop catches it, prints
    [Search error:] with the message and leaves [all_results] as it was;
    the loop goes on with the queries after [q] and ends without an
    exception, and [main] goes on to the report. *)
Theorem search_error_is_caught_and_skipped
    (pre rest : list string) (q msg : string)
    (acc : list JobRecord) (st st1 st2 : State) :
  QUERIES = pre ++ q :: rest →
  for_each pre [] (search_step w g) st = (inr acc, st1) →
  google_search w g q 1 st1 = (inl (Error msg), st2) →
  search_step w g acc q st1
    = (inr acc, log st2 [Printed ("Search error: " +:+ msg)])
  ∧ for_each QUERIES [] (search_step w g) st
    = for_each rest acc (search_step w g) (log st2 [Printed ("Search error: " +:+ msg)])
  ∧ ∃ final st3,
      for_each QUERIES [] (search_step w g) st = (inr final, st3)
      ∧ (configured g → main w g st = report w g (dedupe final) st3).
Proof.
  intros HQ Hpre Hq.
  assert (search_step w g acc q st1
          = (inr acc, log st2 [Printed ("Search error: " +:+ msg)])) as Hstep.
  { unfold search_step, try_except, mbind, M_bind, bind. by rewrite Hq. }
  split; [done|]. split.
  - rewrite HQ, for_each_app. unfold bind at 1. rewrite Hpre.
    cbn [for_each]. unfold bind at 1. by rewrite Hstep.
  - eexists _, _. split; [apply for_each_search|].
    intros Hconf. by apply main_run.
Qed.


End ScriptResults.

(** *** The theorems at sample runs *)

Lemma no_results_mail_witness :
  ∃ out evs msg,
    main world_down globals_set state0
    = (out, {| files := files state0; trace := trace state0 ++ evs |})
    ∧ mails evs = [session_for globals_set msg]
    ∧ From msg = Some "from@example.org" ∧ To msg = Some "to@example.org"
    ∧ contains "No Results" (Subject msg)
    ∧ content msg = "No results found on 2025-03-07 09:05 UTC"
    ∧ attachments msg = []
    ∧ writes evs = []
    ∧ (smtp_relay world_down (session_for globals_set msg) = None →
       delivered evs = [msg] ∧ out = inr tt).
Proof.
  apply (no_results_mail_without_attachment world_down globals_set []
           state0
           (for_each QUERIES [] (search_step world_down globals_set) state0).2).
  - reflexivity.
  - repeat split; reflexivity || (vm_compute; lia).
  - vm_compute. reflexivity.
  - reflexivity.
Defined.

Lemma missing_configuration_witness :
  ∃ msg,
    main world_flaky globals_without_cse state0 = (inl (SystemExit msg), state0)
    ∧ exit_status (main world_flaky globals_without_cse state0).1 ≠ 0%Z
    ∧ requests (trace (main world_flaky globals_without_cse state0).2)
      = requests (trace state0)
    ∧ ∀ name field,
        (name, field) ∈ required_variables →
        truthy (field globals_without_cse) = false →
        contains name msg.
Proof.
  apply (missing_configuration_aborts_before_search world_flaky globals_without_cse state0).
  exists "GOOGLE_CSE_ID", GOOGLE_CSE_ID. split; [|reflexivity].
  unfold required_variables. right. left.
Defined.

Lemma search_error_witness :
  let q1 := default "" (QUERIES !! 0) in
  let q2 := default "" (QUERIES !! 1) in
  let q3 := default "" (QUERIES !! 2) in
  let st1 := log state0 [HttpGet (search_request globals_set q1)] in
  let st2 := log st1 [HttpGet (search_request globals_set q2)] in
  let st2' := log st2 [Printed "Search error: connection refused"] in
  search_step world_flaky globals_set [rec_a1; rec_b] q2 st1 = (inr [rec_a1; rec_b], st2')
  ∧ for_each QUERIES [] (search_step world_flaky globals_set) state0
    = for_each [q3] [rec_a1; rec_b] (search_step world_flaky globals_set) st2'
  ∧ ∃ final st3,
      for_each QUERIES [] (search_step world_flaky globals_set) state0 = (inr final, st3)
      ∧ (configured globals_set →
         main world_flaky globals_set state0
         = report world_flaky globals_set (dedupe final) st3).
Proof.
  intros q1 q2 q3 st1 st2 st2'.
  apply (search_error_is_caught_and_skipped world_flaky globals_set
           [q1] [q3] q2 "connection refused" [rec_a1; rec_b] state0 st1 st2).
  - reflexivity.
  - vm_compute. reflexivity.
  - vm_compute. reflexivity.
Defined.


(** ** The CSV file: results *)

Section CsvResults.
Import CsvFacts.


(** The limit of the reader matters: a record whose title is longer than
    131072 characters is written, but the reader raises on the file. *)
Lemma csv_read_refuses_a_long_field (r : JobRecord) (rs : list JobRecord) (s : string) :
  title r = Some s → Csv.has_special s = false → (131072 < code_points s)%N →
  Csv.read (csv_text (r :: rs)) = None.
Proof.
  intros Htitle Hplain Hlong.
  unfold Csv.read, csv_text, Csv.writeheader, Csv.fieldnames.
  rewrite rows_record by (repeat (apply Forall_cons; split; [by vm_compute|]); done).
  rewrite fmap_cons, join_empty_cons. unfold Csv.row_of at 1. rewrite Htitle.
  cbn [Csv.cell]. rewrite writerow_three. unfold Csv.write_field at 1.
  rewrite Hplain. destruct s as [|c s]; [done|].
  pose proof Hplain as Hc. cbn [Csv.has_special] in Hc.
  apply orb_false_iff in Hc as [Hc Hs].
  apply special_false in Hc as (HC & HQ & HCR & HLF).
  rewrite append_assoc, append_cons.
  rewrite rows_plain by (try done; by apply append_nonempty_r).
  assert (Csv.parse_process_char Csv.field_size_limit Csv.parse_reset (Csv.Chr c)
          = Some (Csv.mkReader Csv.IN_FIELD (String c "") [])) as ->.
  { unfold Csv.parse_process_char, Csv.parse_reset. cbn [Csv.state Csv.is_newline].
    rewrite HLF, HCR. cbn [orb]. unfold Csv.start_field. cbn [Csv.is_newline].
    rewrite HLF, HCR, HQ, HC. cbn [orb].
    rewrite (add_char Csv.field_size_limit); [done|].
    rewrite append_nil_l. cbn [code_points]. unfold Csv.field_size_limit.
    destruct (continuation c); lia. }
  rewrite bind_Some.
  rewrite rows_unquoted_overflow; [done|done|done|..].
  - cbn [code_points]. unfold Csv.field_size_limit. destruct (continuation c); lia.
  - rewrite append_cons, append_nil_l. unfold Csv.field_size_limit. lia.
Qed.


End CsvResults.


(** ** The extractor: results *)

Section Extractor.

Lemma extract_results_map (search_json : SearchJson) :
  extract_results search_json
  = (λ item, {| title := item_title item; url := item_link item;
                snippet := item_snippet item |})
    <$> default [] (items search_json).
Proof.
  unfold extract_results.
  generalize (default [] (items search_json)). intros l.
  set (record_of := λ item, {| title := item_title item; url := item_link item;
                               snippet := item_snippet item |}).
  assert (∀ acc, foldl (λ results item, results ++ [record_of item]) acc l
                 = acc ++ (record_of <$> l)) as Hfold.
  { induction l as [|item l IH]; intros acc; simpl.
    - by rewrite app_nil_r.
    - rewrite IH. by rewrite <- app_assoc. }
  apply (Hfold []).
Qed.

Lemma extract_results_no_items :
  extract_results {| items := None |} = [].
Proof. reflexivity. Qed.

End Extractor.

(** ** Sample runs *)

Section Scenarios.

(** Three queries, two items each, all urls distinct: six records are
    kept, and the file holds the header and six rows. *)
Example run_with_distinct_urls :
  ∃ all st1 st2 text rows,
    for_each QUERIES [] (search_step world_distinct globals_set) state0 = (inr all, st1)
    ∧ length (dedupe all) = 6
    ∧ main world_distinct globals_set state0 = (inr tt, st2)
    ∧ files st2 !! "daily_jobs_google.csv" = Some text
    ∧ Csv.read text = Some rows
    ∧ length rows = 7.
Proof.
  eexists _, _, _, _, _.
  split; [by vm_compute|]. split; [by vm_compute|].
  split; [by vm_compute|]. split; [by vm_compute|].
  split; [by vm_compute|]. done.
Qed.

(** Two queries answer with the same items: each url is kept once. *)
Example run_with_overlapping_urls :
  ∃ all st1,
    for_each QUERIES [] (search_step world_flaky globals_set) state0 = (inr all, st1)
    ∧ all = [rec_a1; rec_b; rec_a1; rec_b]
    ∧ dedupe all = [rec_a1; rec_b].
Proof. eexists _, _. split; [by vm_compute|]. split; by vm_compute. Qed.

(** An item without a snippet: the record has no snippet and its row ends
    with an empty field. *)
Example row_of_item_without_snippet :
  let json := {| items := Some [ {| item_title := Some "Cloud Engineer";
                                    item_link := Some "https://x.com/a";
                                    item_snippet := None |} ] |} in
  snippet <$> extract_results json = [None]
  ∧ csv_text (extract_results json)
    = "title,url,snippet" +:+ Csv.lineterminator +:+
      "Cloud Engineer,https://x.com/a," +:+ Csv.lineterminator.
Proof. split; by vm_compute. Qed.

(** The date of the sample worlds as the mails print it. *)
Example sample_timestamp :
  strftime "%Y-%m-%d %H:%M UTC" (utcnow world_down) = "2025-03-07 09:05 UTC"
  ∧ strftime "%Y-%m-%d" (utcnow world_down) = "2025-03-07".
Proof. split; by vm_compute. Qed.

(** The recipient of the settings holds a line break.  With results, the
    CSV file is written, then building the message raises: no session is
    opened.  Without results nothing at all happens after the searches. *)
Example run_with_broken_recipient :
  ∃ st1 st2,
    main world_flaky globals_broken_recipient state0
    = (inl (Error "Header values may not contain linefeed or carriage return characters"), st1)
    ∧ mails (trace st1) = []
    ∧ writes (trace st1) = [("daily_jobs_google.csv", csv_text [rec_a1; rec_b])]
    ∧ main world_down globals_broken_recipient state0
      = (inl (Error "Header values may not contain linefeed or carriage return characters"), st2)
    ∧ mails (trace st2) = []
    ∧ writes (trace st2) = [].
Proof.
  eexists _, _.
  split; [by vm_compute|]. split; [by vm_compute|]. split; [by vm_compute|].
  split; [by vm_compute|]. split; by vm_compute.
Qed.

(** The relay refuses the message: the file stays written, one session was
    opened, [main] ends with the relay's error and prints no confirmation. *)
Example run_with_refusing_relay :
  ∃ st1,
    main world_refusing globals_set state0 = (inl (Error "authentication failed"), st1)
    ∧ length (mails (trace st1)) = 1
    ∧ files st1 !! "daily_jobs_google.csv" = Some (csv_text [rec_a1; rec_b])
    ∧ last (trace st1) ≠ Some (Printed "Report sent.").
Proof.
  eexists. split; [by vm_compute|]. split; [by vm_compute|].
  split; by vm_compute.
Qed.

(** The lines of some header values: a line break inside a value gives two
    lines, one at its end does not. *)
Example lines_of_header_values :
  str_splitlines ("to@example.org" +:+ nl +:+ "Bcc: other@example.org")
  = ["to@example.org"; "Bcc: other@example.org"]
  ∧ str_splitlines ("to@example.org" +:+ String CR nl) = ["to@example.org"]
  ∧ str_splitlines "Daily Jobs Report — No Results" = ["Daily Jobs Report — No Results"]
  ∧ str_splitlines "" = [].
Proof. repeat split; by vm_compute. Qed.

(** The reader with a limit of three characters: a field of three is
    read, also when its characters take two bytes each; a field of four
    makes the reader raise. *)
Example reader_with_a_small_limit :
  Csv.rows_from 3 Csv.parse_reset (Csv.splitlines ("abc,d" +:+ Csv.lineterminator))
  = Some [["abc"; "d"]]
  ∧ Csv.rows_from 3 Csv.parse_reset (Csv.splitlines ("ééé,d" +:+ Csv.lineterminator))
    = Some [["ééé"; "d"]]
  ∧ Csv.rows_from 3 Csv.parse_reset (Csv.splitlines ("abcd,d" +:+ Csv.lineterminator))
    = None.
Proof. repeat split; by vm_compute. Qed.

End Scenarios.

(** * Further properties of the script *)

(** ** The deduplicator *)

Module DedupeMore.
Import Dedupe DedupeFacts.

(** The set the loop holds at the end: what it started with and the
    non-empty urls it met. *)
Lemma marks_urls_set l : ∀ seen,
  marks seen l
  = seen ∪ list_to_set (filter (λ u, truthy u = true) (url <$> l)).
Proof.
  induction l as [|r l IH]; intros seen.
  - cbn. set_solver.
  - rewrite fmap_cons, filter_cons. cbn [marks].
    destruct (truthy (url r)) eqn:Ht; cbn [andb].
    + rewrite decide_True by done. rewrite list_to_set_cons.
      case_bool_decide as Hn; rewrite IH; set_solver.
    + rewrite decide_False by done. apply IH.
Qed.

Lemma sift_size l : ∀ seen,
  length (sift seen l) + size seen = size (marks seen l).
Proof.
  induction l as [|r l IH]; intros seen; simpl; [done|].
  destruct (truthy (url r) && bool_decide (url r ∉ seen)) eqn:E; [|apply IH].
  apply andb_true_iff in E as [_ Hn%bool_decide_eq_true]. simpl.
  rewrite <- IH, size_union, size_singleton by set_solver. lia.
Qed.

(** Every non-empty url of the list that is not yet in the set is the url
    of a record the loop keeps. *)
Lemma sift_covers l : ∀ seen r,
  r ∈ l → truthy (url r) = true → url r ∉ seen →
  ∃ r', r' ∈ sift seen l ∧ url r' = url r.
Proof.
  induction l as [|x l IH]; intros seen r Hin Ht Hn; [by apply elem_of_nil in Hin|].
  simpl. destruct (truthy (url x) && bool_decide (url x ∉ seen)) eqn:E.
  - destruct (decide (url x = url r)) as [Heq|Hne].
    + exists x. split; [left|done].
    + apply elem_of_cons in Hin as [->|Hin]; [done|].
      destruct (IH ({[url x]} ∪ seen) r Hin Ht) as (r' & Hr' & Hu); [set_solver|].
      exists r'. split; [by right|done].
  - apply elem_of_cons in Hin as [->|Hin].
    + rewrite Ht, bool_decide_eq_true_2 in E by done. done.
    + by apply IH.
Qed.

Lemma sift_urls l seen (u : option string) :
  u ∈ url <$> sift seen l ↔ u ∈ url <$> l ∧ truthy u = true ∧ u ∉ seen.
Proof.
  rewrite !list_elem_of_fmap. split.
  - intros (r & -> & Hr). apply sift_elem in Hr as (Hin & Ht & Hn).
    split; [by exists r|done].
  - intros [(r & -> & Hr) [Ht Hn]].
    destruct (sift_covers l seen r Hr Ht Hn) as (r' & Hr' & Hu).
    by exists r'.
Qed.

(** Starting the loop with more urls in the set drops the records that
    have one of them. *)
Lemma sift_union l : ∀ S T,
  sift (S ∪ T) l = filter (λ r, url r ∉ S) (sift T l).
Proof.
  induction l as [|r l IH]; intros S T; simpl; [done|].
  destruct (truthy (url r)) eqn:Ht; simpl; [|apply IH].
  destruct (decide (url r ∈ T)) as [HT|HT].
  { rewrite !bool_decide_eq_false_2 by set_solver. apply IH. }
  rewrite (bool_decide_eq_true_2 (url r ∉ T)) by done.
  destruct (decide (url r ∈ S)) as [HS|HS].
  - rewrite bool_decide_eq_false_2 by set_solver.
    rewrite filter_cons_False by (intros ?; done).
    rewrite <- IH. f_equal. set_solver.
  - rewrite bool_decide_eq_true_2 by set_solver.
    rewrite filter_cons_True by done. f_equal.
    rewrite <- IH. f_equal. set_solver.
Qed.

Lemma filter_agree {A} (P Q : A → Prop)
    `{!∀ x, Decision (P x)} `{!∀ x, Decision (Q x)} (l : list A) :
  (∀ x, x ∈ l → P x ↔ Q x) → filter P l = filter Q l.
Proof.
  induction l as [|x l IH]; intros Hall; [done|].
  rewrite !filter_cons.
  destruct (decide (P x)) as [HP|HP], (decide (Q x)) as [HQ|HQ].
  - f_equal. apply IH. intros y Hy. apply Hall. by right.
  - destruct HQ. apply Hall; [left|done].
  - destruct HP. apply Hall; [left|done].
  - apply IH. intros y Hy. apply Hall. by right.
Qed.

(** The loop that starts where a run over [xs] ended keeps, of a list,
    what a fresh loop keeps whose url is not in [xs]. *)
Lemma sift_after (xs ys : list JobRecord) :
  sift (marks ∅ xs) ys = filter (λ r, url r ∉ url <$> xs) (sift ∅ ys).
Proof.
  rewrite marks_urls_set, (left_id_L ∅ (∪)).
  rewrite <- (right_id_L ∅ (∪) (list_to_set _)), sift_union.
  apply filter_agree. intros r (_ & Ht & _)%sift_elem.
  rewrite elem_of_list_to_set, list_elem_of_filter. naive_solver.
Qed.

End DedupeMore.

Section DedupeExtras.
Import DedupeFacts DedupeMore.

(** X1.  The output of [dedupe] is the input with records left out: a
    subsequence of it, so never longer, and each record in it is a record
    of the input, unchanged. *)
Theorem dedupe_is_subsequence (xs : list JobRecord) :
  sublist (dedupe xs) xs
  ∧ length (dedupe xs) ≤ length xs
  ∧ ∀ r, r ∈ dedupe xs → r ∈ xs.
Proof.
  pose proof (dedupe_sublist xs) as Hsub. split; [done|].
  split; [by apply sublist_length|].
  intros r Hr. rewrite dedupe_sift in Hr. by apply sift_elem in Hr as [Hin _].
Qed.

(** X2.  [dedupe] loses no url: the urls of the output are exactly the
    non-empty urls of the input. *)
Theorem dedupe_keeps_every_url (xs : list JobRecord) (u : option string) :
  u ∈ url <$> dedupe xs ↔ u ∈ url <$> xs ∧ truthy u = true.
Proof.
  rewrite dedupe_sift, sift_urls. split.
  - by intros (Hin & Ht & _).
  - intros [Hin Ht]. split; [done|]. split; [done|]. set_solver.
Qed.

(** X3.  The output of [dedupe] has as many records as the input has
    different non-empty urls. *)
Theorem dedupe_length_counts_urls (xs : list JobRecord) :
  length (dedupe xs)
  = size (list_to_set (filter (λ u, truthy u = true) (url <$> xs))
            : gset (option string)).
Proof.
  rewrite dedupe_sift. pose proof (sift_size xs ∅) as Hsize.
  rewrite size_empty, marks_urls_set in Hsize.
  rewrite (left_id_L ∅ (∪)) in Hsize. lia.
Qed.

(** X4.  [dedupe] returns its input as it is exactly when every record
    has a non-empty url and no two records share one. *)
Theorem dedupe_fixed_points (xs : list JobRecord) :
  dedupe xs = xs ↔
  (∀ r, r ∈ xs → truthy (url r) = true) ∧ NoDup (url <$> xs).
Proof.
  rewrite dedupe_sift. split.
  - intros Heq. split.
    + intros r Hr. rewrite <- Heq in Hr. by apply sift_elem in Hr as (_ & Ht & _).
    + rewrite <- Heq. apply sift_NoDup.
  - intros [Hall Hnd]. apply sift_fixed; [|done].
    intros r Hr. split; [by apply Hall|set_solver].
Qed.

(** X5.  Results that come later add only records with new urls:
    [dedupe] of two lists one after the other is [dedupe] of the first,
    followed by the records of [dedupe] of the second whose url is not in
    the first. *)
Theorem dedupe_app (xs ys : list JobRecord) :
  dedupe (xs ++ ys)
  = dedupe xs ++ filter (λ r, url r ∉ url <$> xs) (dedupe ys).
Proof.
  rewrite !dedupe_sift, sift_app. f_equal. apply sift_after.
Qed.

(** X6.  Deduplicating each list first changes nothing: [dedupe] of the
    two outputs one after the other is [dedupe] of the two inputs one
    after the other. *)
Theorem dedupe_of_deduped_parts (xs ys : list JobRecord) :
  dedupe (dedupe xs ++ dedupe ys) = dedupe (xs ++ ys).
Proof.
  assert (∀ l, sift ∅ (sift ∅ l) = sift ∅ l) as Hidem.
  { intros l. apply sift_fixed; [|apply sift_NoDup].
    intros r (_ & Ht & _)%sift_elem. split; [done|set_solver]. }
  rewrite !dedupe_sift, !sift_app, !sift_after, !Hidem. f_equal.
  apply filter_agree.
  intros r (_ & Ht & _)%sift_elem.
  rewrite sift_urls. split.
  - intros Hn Hin. apply Hn. split; [done|]. split; [done|]. set_solver.
  - intros Hn (Hin & _). done.
Qed.

End DedupeExtras.

(** ** The query loop, the mail and the run *)

Module ScriptMore.
Import ScriptFacts.

Section Runs.
Variable w : World.
Variable g : Globals.

Lemma search_events_requests (qs : list string) :
  requests (concat (search_events w g <$> qs)) = search_request g <$> qs.
Proof.
  induction qs as [|q qs IH]; [done|].
  rewrite !fmap_cons, concat_cons. unfold requests in *.
  rewrite omap_app, IH. unfold search_events.
  by destruct (search_outcome w g q).
Qed.

Lemma search_events_silent (qs : list string) :
  mails (concat (search_events w g <$> qs)) = []
  ∧ writes (concat (search_events w g <$> qs)) = []
  ∧ (Printed "Report sent." ∉ concat (search_events w g <$> qs)).
Proof.
  induction qs as [|q qs (IHm & IHw & IHp)].
  { split; [done|]. split; [done|]. by intros ?%elem_of_nil. }
  rewrite fmap_cons, concat_cons. unfold mails, writes in *.
  rewrite !omap_app, IHm, IHw. unfold search_events.
  destruct (search_outcome w g q) as [msg|json]; (split; [done|]); (split; [done|]).
  - intros [Hin|Hin]%elem_of_app; [|done].
    apply elem_of_cons in Hin as [[=]|Hin].
    apply list_elem_of_singleton in Hin. discriminate.
  - intros [Hin|Hin]%elem_of_app; [|done].
    apply list_elem_of_singleton in Hin. discriminate.
Qed.

End Runs.
End ScriptMore.

Section ScriptExtras.
Import ScriptFacts ScriptMore.

Variable w : World.
Variable g : Globals.

(** X7.  The query loop, for any list of queries: it never raises; it
    sends exactly one request per query, in the order of the list, whether
    earlier ones failed or not; it writes no file and opens no mail
    session; and what it gathers is, query by query in order, the
    extracted records of an answered query and nothing for a failed one. *)
Theorem query_loop_one_request_per_query (qs : list string) (st : State) :
  ∃ all evs,
    for_each qs [] (search_step w g) st
    = (inr all, {| files := files st; trace := trace st ++ evs |})
    ∧ requests evs
      = (λ q, {| req_url := "https://www.googleapis.com/customsearch/v1";
                 param_key := GOOGLE_API_KEY g; param_cx := GOOGLE_CSE_ID g;
                 param_q := q; param_start := 1; param_gl := "in";
                 req_timeout := 15 |}) <$> qs
    ∧ writes evs = [] ∧ mails evs = []
    ∧ all = concat ((λ q, match (google_search w g q 1 st).1 with
                          | inr json => extract_results json
                          | inl _ => []
                          end) <$> qs).
Proof.
  exists (concat (found w g <$> qs)), (concat (search_events w g <$> qs)).
  split; [by rewrite for_each_search|].
  split; [apply search_events_requests|].
  destruct (search_events_silent w g qs) as (Hm & Hw & _).
  split; [done|]. split; [done|].
  f_equal. apply list_fmap_ext. intros _ q _.
  rewrite google_search_run. unfold found. cbn [fst].
  by destruct (search_outcome w g q).
Qed.

(** X8.  A run of [main] opens at most one mail session, whatever the
    settings, the searches, the file system and the relay do.  When it
    opens none, it ends with an exception.  When it opens one, the
    settings were complete, one request per query had been sent before,
    and [main] ends as the relay answers: it returns (exit status 0) when
    the relay takes the message and ends with the relay's error (exit
    status 1) when it does not. *)
Theorem main_opens_at_most_one_session (st : State) :
  ∃ evs,
    trace (main w g st).2 = trace st ++ evs
    ∧ length (mails evs) ≤ 1
    ∧ (mails evs = [] → ∃ e, (main w g st).1 = inl e)
    ∧ (∀ session, mails evs = [session] →
         configured g
         ∧ requests evs
           = (λ q, {| req_url := "https://www.googleapis.com/customsearch/v1";
                      param_key := GOOGLE_API_KEY g; param_cx := GOOGLE_CSE_ID g;
                      param_q := q; param_start := 1; param_gl := "in";
                      req_timeout := 15 |}) <$> QUERIES
         ∧ (main w g st).1
           = match smtp_relay w session with
             | None => inr tt
             | Some refusal => inl (Error refusal)
             end
         ∧ exit_status (main w g st).1
           = match smtp_relay w session with None => 0%Z | Some _ => 1%Z end).
Proof.
  destruct (negb (truthy (GOOGLE_API_KEY g)) || negb (truthy (GOOGLE_CSE_ID g))
            || negb (truthy (RECIPIENT g)) || negb (truthy (FROM_EMAIL g))
            || negb (truthy (SMTP_PASS g))) eqn:Htest.
  { exists []. unfold main. rewrite Htest. cbn [raise fst snd].
    rewrite app_nil_r. split; [done|]. split; [simpl; lia|].
    split; [eauto|]. by intros session [=]. }
  apply configured_test in Htest. rewrite main_run by done.
  destruct (search_events_silent w g QUERIES) as (Hm & _ & _).
  set (st1 := log st (concat (search_events w g <$> QUERIES))).
  destruct (report_outcome w g (dedupe (concat (found w g <$> QUERIES))) st1)
    as (evs & Htrace & Hreq & _ & Hlen & Hnone & Hsome).
  exists (concat (search_events w g <$> QUERIES) ++ evs).
  rewrite Htrace. cbn [st1 log trace].
  split; [by rewrite app_assoc|].
  rewrite mails_app, Hm, app_nil_l.
  split; [done|]. split; [done|].
  intros session Hsession. split; [done|].
  split; [by rewrite requests_app, Hreq, app_nil_r, search_events_requests|].
  rewrite (Hsome session Hsession). split; [done|].
  by destruct (smtp_relay w session).
Qed.


(** X10.  [send_email] given the path of a file that is not there raises
    before it opens a mail session: no event at all is added. *)
Theorem send_email_missing_file_opens_no_session
    (subject body path : string) (st : State) :
  path ≠ "" → files st !! path = None →
  ∃ msg, send_email w g subject body (Some path) st = (inl (Error msg), st).
Proof.
  intros Hpath Hfile.
  destruct (send_email_headers w g subject) as [[Hone Hacc]|[msg Hmsg]].
  - rewrite send_email_missing_run by done. eauto.
  - rewrite Hmsg. eauto.
Qed.

(** X11.  [send_email] treats the empty path as no path: when the subject
    has one line and the sender and the recipient are taken as headers,
    it reads no file and opens one session whose message has the given
    subject and body and no attachment. *)
Theorem send_email_empty_path_attaches_nothing (subject body : string) (st : State) :
  one_line subject →
  addresses_accepted w g →
  ∃ out session,
    send_email w g subject body (Some "") st
    = (out, {| files := files st;
               trace := trace st ++ [Smtp session (smtp_relay w session)] |})
    ∧ Subject (smtp_message session) = subject
    ∧ content (smtp_message session) = body
    ∧ attachments (smtp_message session) = []
    ∧ out = match smtp_relay w session with
            | None => inr tt
            | Some refusal => inl (Error refusal)
            end.
Proof.
  intros Hone Hacc.
  change (send_email w g subject body (Some "") st)
    with (send_email w g subject body None st).
  rewrite send_email_plain_run by done. by eexists _, _.
Qed.


(** X14.  When the CSV file cannot be opened for writing, a run of [main]
    with complete settings and results ends with the error of [open]
    (exit status 1) right after the searches: no file is changed, nothing
    is written and no mail session is opened. *)
Theorem main_stops_when_the_csv_cannot_be_written
    (all : list JobRecord) (refusal : string) (st st1 : State) :
  configured g →
  for_each QUERIES [] (search_step w g) st = (inr all, st1) →
  dedupe all ≠ [] →
  open_for_writing w "daily_jobs_google.csv" = Some refusal →
  main w g st = (inl (Error refusal), st1)
  ∧ exit_status (main w g st).1 = 1%Z
  ∧ files st1 = files st
  ∧ ∃ evs, trace st1 = trace st ++ evs ∧ writes evs = [] ∧ mails evs = [].
Proof.
  intros Hconf Hloop Hres Hopen.
  rewrite for_each_search in Hloop.
  assert (all = concat (found w g <$> QUERIES)) as ->.
  { apply (f_equal fst) in Hloop. cbn [fst] in Hloop. by apply (inj inr) in Hloop. }
  apply (f_equal snd) in Hloop. cbn [snd] in Hloop. subst st1.
  rewrite main_run by done.
  rewrite (report_refused_run w g _ refusal) by done.
  destruct (search_events_silent w g QUERIES) as (Hm & Hw & _).
  split; [done|]. split; [done|]. split; [done|].
  by exists (concat (search_events w g <$> QUERIES)).
Qed.

End ScriptExtras.

(** *** The theorems at sample runs *)


Lemma send_email_missing_file_witness :
  ∃ msg,
    send_email world_flaky globals_set "subject" "body" (Some "missing.csv") state0
    = (inl (Error msg), state0).
Proof.
  apply (send_email_missing_file_opens_no_session world_flaky globals_set
           "subject" "body" "missing.csv" state0).
  - discriminate.
  - reflexivity.
Defined.

Lemma send_email_empty_path_witness :
  ∃ out session,
    send_email world_refusing globals_set "subject" "body" (Some "") state_with_file
    = (out, {| files := files state_with_file;
               trace := trace state_with_file
                        ++ [Smtp session (smtp_relay world_refusing session)] |})
    ∧ Subject (smtp_message session) = "subject"
    ∧ content (smtp_message session) = "body"
    ∧ attachments (smtp_message session) = []
    ∧ out = match smtp_relay world_refusing session with
            | None => inr tt
            | Some refusal => inl (Error refusal)
            end.
Proof.
  apply (send_email_empty_path_attaches_nothing world_refusing globals_set
           "subject" "body" state_with_file).
  - vm_compute. lia.
  - repeat split; reflexivity || (vm_compute; lia).
Defined.


Lemma main_stops_when_the_csv_cannot_be_written_witness :
  let st1 := (for_each QUERIES [] (search_step world_readonly globals_set) state0).2 in
  main world_readonly globals_set state0
  = (inl (Error "[Errno 13] Permission denied"), st1)
  ∧ exit_status (main world_readonly globals_set state0).1 = 1%Z
  ∧ files st1 = files state0
  ∧ ∃ evs, trace st1 = trace state0 ++ evs ∧ writes evs = [] ∧ mails evs = [].
Proof.
  apply (main_stops_when_the_csv_cannot_be_written world_readonly globals_set
           [rec_a1; rec_b; rec_a1; rec_b] "[Errno 13] Permission denied" state0).
  - reflexivity.
  - vm_compute. reflexivity.
  - vm_compute. discriminate.
  - reflexivity.
Defined.

(** ** Paths, the CSV text and the extractor *)

Module TextMore.
Import CsvFacts.

Lemma has_slash_append (a b : string) :
  existsb (Ascii.eqb "/") (list_ascii_of_string (a +:+ b))
  = existsb (Ascii.eqb "/") (list_ascii_of_string a)
    || existsb (Ascii.eqb "/") (list_ascii_of_string b).
Proof.
  induction a as [|c a IH]; [done|].
  rewrite append_cons. cbn [list_ascii_of_string existsb]. rewrite IH.
  by rewrite orb_assoc.
Qed.

Lemma basename_no_slash (p : string) :
  existsb (Ascii.eqb "/") (list_ascii_of_string p) = false → basename p = p.
Proof.
  destruct p as [|c p]; [done|]. cbn [list_ascii_of_string existsb basename].
  intros [Hc Hp]%orb_false_iff. rewrite Ascii.eqb_sym in Hc. by rewrite Hc, Hp.
Qed.

Lemma basename_split (p : string) :
  ∃ dir, p = dir +:+ basename p
         ∧ (dir = "" ∨ ∃ d, dir = d +:+ "/")
         ∧ existsb (Ascii.eqb "/") (list_ascii_of_string (basename p)) = false.
Proof.
  induction p as [|c p (dir & Hp & Hdir & Hbase)].
  { exists "". split; [done|]. split; [by left|done]. }
  cbn [basename]. destruct (Ascii.eqb c "/") eqn:Hc.
  - apply Ascii.eqb_eq in Hc as ->. exists (String "/" dir).
    rewrite append_cons, <- Hp. split; [done|]. split; [|done].
    right. destruct Hdir as [->|[d ->]]; [by exists ""|].
    exists (String "/" d). by rewrite append_cons.
  - destruct (existsb (Ascii.eqb "/") (list_ascii_of_string p)) eqn:Hs.
    + exists (String c dir). rewrite append_cons, <- Hp. split; [done|].
      split; [|done]. right. destruct Hdir as [->|[d ->]].
      * rewrite append_nil_l in Hp. rewrite Hp, Hbase in Hs. discriminate.
      * exists (String c d). by rewrite append_cons.
    + exists "". split; [done|]. split; [by left|].
      cbn [list_ascii_of_string existsb]. rewrite Ascii.eqb_sym, Hc. by rewrite Hs.
Qed.

Lemma basename_join (d name : string) :
  existsb (Ascii.eqb "/") (list_ascii_of_string name) = false →
  basename (d +:+ "/" +:+ name) = name.
Proof.
  intros Hname. induction d as [|c d IH].
  - rewrite append_nil_l. change ("/" +:+ name) with (String "/" name).
    cbn [basename]. change (Ascii.eqb "/" "/") with true. cbv iota.
    by apply basename_no_slash.
  - rewrite append_cons. cbn [basename]. rewrite IH.
    rewrite has_slash_append. change ("/" +:+ name) with (String "/" name).
    cbn [list_ascii_of_string existsb]. change (Ascii.eqb "/" "/") with true.
    cbn [orb]. rewrite orb_true_r. by destruct (Ascii.eqb c "/").
Qed.

End TextMore.

Section TextExtras.
Import CsvFacts TextMore.

(** X13.  [os.path.basename], as [send_email] uses it to name the
    attachment: the path is a directory part, empty or ending in a slash,
    followed by the base name, and the base name holds no slash.  A path
    without a slash is its own base name, and the base name of
    [dir/name] is [name] when [name] has no slash. *)
Theorem basename_is_what_follows_the_last_slash (p : string) :
  (∃ dir, p = dir +:+ basename p ∧ (dir = "" ∨ ∃ d, dir = d +:+ "/"))
  ∧ existsb (Ascii.eqb "/") (list_ascii_of_string (basename p)) = false
  ∧ (existsb (Ascii.eqb "/") (list_ascii_of_string p) = false → basename p = p)
  ∧ (∀ d name, p = d +:+ "/" +:+ name →
       existsb (Ascii.eqb "/") (list_ascii_of_string name) = false →
       basename p = name).
Proof.
  destruct (basename_split p) as (dir & Hp & Hdir & Hbase).
  split; [by exists dir|]. split; [done|]. split; [apply basename_no_slash|].
  intros d name -> Hname. by apply basename_join.
Qed.

(** X15.  The CSV text tells the rows apart: two lists of records have
    the same CSV text only when they have the same rows, that is the same
    titles, urls and snippets in the same order, a missing one counting as
    the empty string. *)
Theorem csv_text_determines_the_rows (rs1 rs2 : list JobRecord) :
  csv_text rs1 = csv_text rs2 → Csv.row_of <$> rs1 = Csv.row_of <$> rs2.
Proof.
  intros Heq.
  set (limit := N.max 7 (CsvAux.widest (rs1 ++ rs2))).
  assert (Forall (λ r, CsvAux.fits limit (Csv.row_of r)) (rs1 ++ rs2)) as Hfit.
  { eapply Forall_impl; [apply widest_fits|]. intros r.
    apply fits_mono. unfold limit. lia. }
  apply Forall_app in Hfit as [Hfit1 Hfit2].
  pose proof (CsvFacts.read_csv_text limit rs1) as Hread.
  rewrite Heq, CsvFacts.read_csv_text in Hread by (done || (unfold limit; lia)).
  specialize (Hread ltac:(unfold limit; lia) Hfit1). by injection Hread.
Qed.

(** X17.  [extract_results] gives one record per item, in the order of
    the items: the record at a position has the title, the link (as its
    url) and the snippet of the item at that position, [None] where the
    item has none.  A response without items gives no record. *)
Theorem extract_results_one_record_per_item (search_json : SearchJson) :
  length (extract_results search_json) = length (default [] (items search_json))
  ∧ (∀ i, extract_results search_json !! i
          = (λ item, {| title := item_title item; url := item_link item;
                        snippet := item_snippet item |})
            <$> default [] (items search_json) !! i)
  ∧ (items search_json = None → extract_results search_json = []).
Proof.
  assert (extract_results search_json
          = (λ item, {| title := item_title item; url := item_link item;
                        snippet := item_snippet item |})
            <$> default [] (items search_json)) as Hmap.
  { unfold extract_results.
    generalize (default [] (items search_json)). intros l.
    set (record_of := λ item, {| title := item_title item; url := item_link item;
                                 snippet := item_snippet item |}).
    assert (∀ acc, foldl (λ results item, results ++ [record_of item]) acc l
                   = acc ++ (record_of <$> l)) as Hfold.
    { induction l as [|item l IH]; intros acc; simpl.
      - by rewrite app_nil_r.
      - rewrite IH. by rewrite <- app_assoc. }
    apply (Hfold []). }
  split; [by rewrite Hmap, length_fmap|].
  split; [intros i; by rewrite Hmap, list_lookup_fmap|].
  intros Hnone. by rewrite Hmap, Hnone.
Qed.

End TextExtras.

Lemma csv_text_determines_the_rows_witness :
  Csv.row_of <$> [rec_notitle; rec_a1] = Csv.row_of <$> [rec_emptytitle; rec_a1].
Proof.
  apply (csv_text_determines_the_rows [rec_notitle; rec_a1] [rec_emptytitle; rec_a1]).
  reflexivity.
Defined.

(** ** Selection by url, the search call and the files *)

Module UrlsMore.
Import Dedupe DedupeFacts DedupeMore.

(** Whether the turn for a position appends its record, read off the
    urls alone. *)
Lemma kept_at_urls (l : list JobRecord) (i : nat) :
  kept_at l i
  = match (url <$> l) !! i with
    | Some u =>
        truthy u
        && bool_decide (u ∉ (list_to_set (filter (λ u, truthy u = true)
                                            (take i (url <$> l)))
                             : gset (option string)))
    | None => false
    end.
Proof.
  unfold kept_at. rewrite list_lookup_fmap.
  destruct (l !! i) as [r|]; [|done]. cbn [fmap option_fmap option_map].
  rewrite loop_sift. cbn [fst].
  by rewrite marks_urls_set, (left_id_L ∅ (∪)), fmap_take.
Qed.

Lemma dedupe_urls_by_position (l : list JobRecord) :
  url <$> dedupe l
  = omap (λ i, if kept_at l i then (url <$> l) !! i else None)
         (seq 0 (length (url <$> l))).
Proof.
  rewrite dedupe_kept, list_fmap_omap, length_fmap.
  apply list_omap_ext, Forall2_same_length_lookup_2; [done|].
  intros i a b Ha Hb. assert (a = b) as -> by congruence.
  destruct (kept_at l b); [|done]. by rewrite list_lookup_fmap.
Qed.

End UrlsMore.

Section MoreExtras.
Import ScriptFacts DedupeFacts UrlsMore.

(** X18.  Which records [dedupe] keeps depends on the urls alone: two
    inputs with the same urls, position by position, have the same
    positions kept and outputs with the same urls, whatever their titles
    and snippets. *)
Theorem dedupe_selects_by_url_alone (xs ys : list JobRecord) :
  url <$> xs = url <$> ys →
  (∀ i, kept_at xs i = kept_at ys i)
  ∧ url <$> dedupe xs = url <$> dedupe ys.
Proof.
  intros Hurls.
  assert (∀ i, kept_at xs i = kept_at ys i) as Hkept.
  { intros i. by rewrite !kept_at_urls, Hurls. }
  split; [done|].
  rewrite !dedupe_urls_by_position, Hurls.
  apply list_omap_ext, Forall2_same_length_lookup_2; [done|].
  intros i a b Ha Hb. assert (a = b) as -> by congruence.
  by rewrite Hkept.
Qed.

Variable w : World.
Variable g : Globals.

(** X19.  [google_search] sends exactly one request and changes no file,
    however the call ends.  It returns the parsed body exactly when the
    call got a response whose status is not from 400 to 599 and whose
    body parses; otherwise it raises an error of class [Exception], never
    [SystemExit]. *)
Theorem google_search_returns_or_raises (query : string) (start : Z) (st : State) :
  let req := {| req_url := "https://www.googleapis.com/customsearch/v1";
                param_key := GOOGLE_API_KEY g; param_cx := GOOGLE_CSE_ID g;
                param_q := query; param_start := start; param_gl := "in";
                req_timeout := 15 |} in
  ∃ out,
    google_search w g query start st
    = (out, {| files := files st; trace := trace st ++ [HttpGet req] |})
    ∧ (∀ json, out = inr json ↔
         ∃ status reason,
           http_get w req = Response status reason (inr json)
           ∧ ¬ (400 ≤ status < 600)%Z)
    ∧ (∀ e, out = inl e → ∃ msg, e = Error msg).
Proof.
  intros req. unfold google_search, mbind, M_bind, bind, emit.
  fold req. cbn [files trace].
  destruct (http_get w req) as [msg|status reason body] eqn:Hget.
  - eexists. split; [reflexivity|]. split.
    + intros json. split; [done|]. by intros (? & ? & ? & _).
    + intros e [= <-]. eauto.
  - destruct ((400 <=? status)%Z && (status <? 600)%Z) eqn:Hst.
    + eexists. split; [reflexivity|]. split.
      * intros json. split; [done|]. intros (s & r & [= <- _ _] & Hn).
        apply andb_true_iff in Hst as [?%Z.leb_le ?%Z.ltb_lt]. lia.
      * intros e [= <-]. eauto.
    + assert (¬ (400 ≤ status < 600)%Z) as Hn.
      { intros [H1%Z.leb_le H2%Z.ltb_lt]. by rewrite H1, H2 in Hst. }
      destruct body as [msg|json'].
      * eexists. split; [reflexivity|]. split.
        -- intros json. split; [done|]. by intros (? & ? & [=] & _).
        -- intros e [= <-]. eauto.
      * eexists. split; [reflexivity|]. split.
        -- intros json. split.
           ++ intros [= <-]. eauto.
           ++ by intros (? & ? & [= _ _ ->] & _).
        -- by intros e [=].
Qed.

(** X20.  A run of [main] touches no file but the CSV file: every other
    file is after the run as it was before, whatever the settings and
    whatever the searches and the relay do. *)
Theorem main_touches_only_the_csv_file (st : State) (other : string) :
  other ≠ "daily_jobs_google.csv" →
  files (main w g st).2 !! other = files st !! other.
Proof.
  intros Hother.
  destruct (negb (truthy (GOOGLE_API_KEY g)) || negb (truthy (GOOGLE_CSE_ID g))
            || negb (truthy (RECIPIENT g)) || negb (truthy (FROM_EMAIL g))
            || negb (truthy (SMTP_PASS g))) eqn:Htest.
  - unfold main. by rewrite Htest.
  - apply configured_test in Htest. rewrite main_run by done.
    destruct (report_outcome w g (dedupe (concat (found w g <$> QUERIES)))
                (log st (concat (search_events w g <$> QUERIES))))
      as (evs & _ & _ & Hfiles & _).
    by rewrite Hfiles.
Qed.

End MoreExtras.

(** *** The theorems at sample inputs *)

Lemma dedupe_selects_by_url_alone_witness :
  (∀ i, kept_at [rec_a1; rec_b; rec_a2] i = kept_at [rec_a2; rec_b; rec_a1] i)
  ∧ url <$> dedupe [rec_a1; rec_b; rec_a2] = url <$> dedupe [rec_a2; rec_b; rec_a1].
Proof.
  apply (dedupe_selects_by_url_alone [rec_a1; rec_b; rec_a2] [rec_a2; rec_b; rec_a1]).
  reflexivity.
Defined.

Lemma main_touches_only_the_csv_file_witness :
  files (main world_flaky globals_set state_with_file).2 !! "out/report.csv"
  = files state_with_file !! "out/report.csv".
Proof.
  apply (main_touches_only_the_csv_file world_flaky globals_set
           state_with_file "out/report.csv").
  discriminate.
Defined.
